(** * OpenWebRX source registry and reporting engine

    A shallow embedding of [owrx/sdr.py] and [owrx/reporting.py]:
    the device registry ([MappedSdrSources]), the health view
    ([ActiveSdrSources] with its [SourceStateHandler]s), the profile
    catalogue ([AvailableProfiles]) and the spot fan-out of
    [ReportingEngine].  Python dictionaries are finite maps, objects with
    identity live in a heap indexed by their identity, and a raised
    exception is an explicit result that keeps the state reached so far. *)

From stdpp Require Import gmap strings list fin_maps pretty.
From Stdlib Require Import ZArith.

Open Scope Z_scope.
Open Scope nat_scope.

(** ** Python values used as dictionary keys and field values *)

(** A hashable Python value: device ids are strings in the configuration,
    but nothing in [sdr.py] stops another hashable (an [int]) from being
    used, and [AvailableProfiles] treats the two differently. *)
Inductive pykey :=
| KStr (s : string)
| KInt (z : Z).

#[global] Instance pykey_eq_dec : EqDecision pykey.
Proof. solve_decision. Defined.

Definition pykey_to_sum (k : pykey) : string + Z :=
  match k with KStr s => inl s | KInt z => inr z end.

Definition pykey_of_sum (x : string + Z) : pykey :=
  match x with inl s => KStr s | inr z => KInt z end.

#[global] Instance pykey_countable : Countable pykey.
Proof.
  apply (inj_countable' pykey_to_sum pykey_of_sum).
  by intros [].
Defined.

(** ["{}".format(key)]: a string formats as itself, an integer as its
    decimal numeral. *)
Definition format_key (k : pykey) : string :=
  match k with
  | KStr s => s
  | KInt z => pretty z
  end.

(** ** Exceptions and the state-and-exception monad *)

Inductive exn :=
| KeyError (k : pykey).

Inductive result (A : Type) :=
| Ok (a : A)
| Raise (e : exn).
Arguments Ok {A} a.
Arguments Raise {A} e.

Section Monad.
Context {S : Type}.

Definition M (A : Type) : Type := S → result A * S.

Definition ret {A} (a : A) : M A := λ s, (Ok a, s).

Definition raise {A} (e : exn) : M A := λ s, (Raise e, s).

Definition bind {A B} (m : M A) (k : A → M B) : M B :=
  λ s, match m s with
       | (Ok a, s') => k a s'
       | (Raise e, s') => (Raise e, s')
       end.

Definition gets {A} (f : S → A) : M A := λ s, (Ok (f s), s).

Definition modify (f : S → S) : M unit := λ s, (Ok tt, f s).

End Monad.
Arguments M S A : clear implicits.

Notation "'let*' x ':=' m 'in' k" := (bind m (λ x, k))
  (at level 10, x pattern, m at level 100, k at level 200).
Notation "m1 '>>' m2" := (bind m1 (λ _, m2))
  (at level 100, m2 at level 200, right associativity).

(** A Python [for x in l: body(x)]: the first exception ends the loop. *)
Fixpoint for_each {S A} (l : list A) (body : A → M S unit) : M S unit :=
  match l with
  | [] => ret tt
  | x :: l' => body x >> for_each l' body
  end.

(** ** The reporting engine ([owrx/reporting.py]) *)

Module ReportingEngine.

(** A spot is a Python dict from field names to values. *)
Record Reporter := {
  rid : nat;                         (* the reporter object *)
  getSupportedModes : list pykey     (* the mode tags it accepts *)
}.

(** What the engine's reporters have been handed, in order: the
    observable effect of [Reporter.spot]. *)
Record Engine := {
  reporters : list Reporter;
  delivered : list (nat * gmap string pykey)
}.

(** [spot["mode"]]: a missing field raises [KeyError]. *)
Definition spot_mode (spot : gmap string pykey) : M Engine pykey :=
  match spot !! "mode"%string with
  | Some m => ret m
  | None => raise (KeyError (KStr "mode"))
  end.

Definition Reporter_spot (r : Reporter) (spot : gmap string pykey) : M Engine unit :=
  modify (λ e, {| reporters := reporters e;
                  delivered := delivered e ++ [(rid r, spot)] |}).

(** The body of the loop of [ReportingEngine.spot]:
    if spot["mode"] in r.getSupportedModes(): r.spot(spot) *)
Definition offer (spot : gmap string pykey) (r : Reporter) : M Engine unit :=
  let* m := spot_mode spot in
  if bool_decide (m ∈ getSupportedModes r) then Reporter_spot r spot
  else ret tt.

(** [ReportingEngine.spot]: for r in self.reporters: ... *)
Definition spot (spot : gmap string pykey) : M Engine unit :=
  let* rs := gets reporters in
  for_each rs (offer spot).

End ReportingEngine.

(** ** The profile catalogue ([AvailableProfiles] in [owrx/sdr.py]) *)

Module AvailableProfiles.

(** The part of an [SdrSource] the catalogue reads. *)
Record Source := {
  getName : string
}.

(** [self._layer], [self.subscriptions], and the subscription objects
    handed out by [wireProperty]: [issued] counts them (a subscription is
    identified by its rank of creation), [live] holds the ones still
    registered with their device, [cancelled] lists the [cancel()] calls
    in the order they were made. *)
Record Catalog := {
  layer : gmap pykey string;
  subscriptions : gmap pykey (list nat);
  issued : nat;
  live : gset nat;
  cancelled : list nat
}.

Definition set_layer (f : gmap pykey string → gmap pykey string) (c : Catalog) : Catalog :=
  {| layer := f (layer c); subscriptions := subscriptions c;
     issued := issued c; live := live c; cancelled := cancelled c |}.

Definition set_subscriptions
    (f : gmap pykey (list nat) → gmap pykey (list nat)) (c : Catalog) : Catalog :=
  {| layer := layer c; subscriptions := f (subscriptions c);
     issued := issued c; live := live c; cancelled := cancelled c |}.

Definition empty : Catalog :=
  {| layer := ∅; subscriptions := ∅; issued := 0; live := ∅; cancelled := [] |}.

(** Modelled from the spec: [PropertyLayer] (owrx.property) is not among
    the sources; the spec calls it an overlay, a mapping from id to value.
    It is embedded as the Python dict it wraps: item assignment stores the
    value, item deletion of a key that is not there raises [KeyError]
    (the guards [if key in self._layer] in [sdr.py] rely on it). *)
Definition layer_setitem (k : pykey) (v : string) : M Catalog unit :=
  modify (set_layer <[k := v]>).

Definition layer_delitem (k : pykey) : M Catalog unit :=
  λ c, match layer c !! k with
       | Some _ => (Ok tt, set_layer (delete k) c)
       | None => (Raise (KeyError k), c)
       end.

(** Modelled from the spec: [wireProperty] (owrx.property) registers a
    listener and returns a cancellable Subscription handle; [cancel]
    unregisters it. *)
Definition wireProperty : M Catalog nat :=
  λ c, (Ok (issued c),
        {| layer := layer c; subscriptions := subscriptions c;
           issued := Datatypes.S (issued c); live := {[issued c]} ∪ live c;
           cancelled := cancelled c |}).

Definition cancel (s : nat) : M Catalog unit :=
  modify (λ c, {| layer := layer c; subscriptions := subscriptions c;
                  issued := issued c; live := live c ∖ {[s]};
                  cancelled := cancelled c ++ [s] |}).

(** [handleSdrNameChange]: self._layer[s_id] = name *)
Definition handleSdrNameChange (s_id : pykey) (name : string) : M Catalog unit :=
  layer_setitem s_id name.

(** [_addSource]:
    self._layer["{}".format(key)] = source.getName()
    self.subscriptions[key] = [source.getProps().wireProperty("name", ...)] *)
Definition _addSource (key : pykey) (source : Source) : M Catalog unit :=
  layer_setitem (KStr (format_key key)) (getName source) >>
  let* s := wireProperty in
  modify (set_subscriptions <[key := [s]]>).

(** One turn of the loop [while self.subscriptions[key]: ...pop()]: the
    list stored under [key] is read; when it is empty the loop is over
    ([None]), otherwise [pop()] takes its last element off. *)
Definition pop (key : pykey) : M Catalog (option nat) :=
  λ c, match subscriptions c !! key with
       | Some l =>
           match last l with
           | Some s => (Ok (Some s), set_subscriptions <[key := removelast l]> c)
           | None => (Ok None, c)
           end
       | None => (Raise (KeyError key), c)
       end.

(** [while self.subscriptions[key]: self.subscriptions[key].pop().cancel()];
    every turn shortens the list, so its length bounds the turns. *)
Fixpoint drain (turns : nat) (key : pykey) : M Catalog unit :=
  match turns with
  | 0 => ret tt
  | Datatypes.S n =>
      let* o := pop key in
      match o with
      | Some s => cancel s >> drain n key
      | None => ret tt
      end
  end.

(** [_removeSource]:
    del self._layer[key]
    if key in self.subscriptions:
        while self.subscriptions[key]: self.subscriptions[key].pop().cancel()
        del self.subscriptions[key] *)
Definition _removeSource (key : pykey) : M Catalog unit :=
  layer_delitem key >>
  let* subs := gets (λ c, subscriptions c !! key) in
  match subs with
  | Some l =>
      drain (length l) key >>
      modify (set_subscriptions (delete key))
  | None => ret tt
  end.

Inductive change :=
| Upsert (source : Source)
| PropertyDeleted.

(** [handleSdrDeviceChange] *)
Definition handleSdrDeviceChange (changes : list (pykey * change)) : M Catalog unit :=
  for_each changes (λ '(key, value),
    match value with
    | PropertyDeleted => _removeSource key
    | Upsert source => _addSource key source
    end).

End AvailableProfiles.

(** ** The device registry and the health view ([owrx/sdr.py]) *)

(** One property set of the configuration: the [type] tag, the [name],
    and the [enabled] flag the device reads. *)
Record ConfigEntry := {
  cfg_type : string;
  cfg_name : string;
  cfg_enabled : bool
}.

(** A [SourceStateHandler] object: its identity, [self.key] and
    [self.source] (the identity of an [SdrSource]); [self.pm] is always
    the health view's layer. *)
Record Handler := {
  hid : nat;
  hkey : pykey;
  hsource : nat
}.

#[global] Instance Handler_eq_dec : EqDecision Handler.
Proof. solve_decision. Defined.

(** Modelled from the spec: [SdrSource] (owrx.source) is not among the
    sources.  The spec gives a device proxy a lifecycle state
    (enabled/disabled, failed/healthy), a display name, and a list of
    registered lifecycle listeners. *)
Record Device := {
  dev_id : pykey;
  dev_name : string;
  enabled : bool;
  failed : bool;
  clients : list Handler
}.

Inductive Event :=
| Installed (key : pykey) (source : nat)   (* the registry layer stored a proxy *)
| Removed (key : pykey)                    (* the registry layer dropped a key *)
| ShutdownCalled (source : nat).           (* [source.shutdown()] was invoked *)

#[global] Instance Event_eq_dec : EqDecision Event.
Proof. solve_decision. Defined.

(** The process state [SdrService] holds: the registry's layer, the heap
    of device objects, the health view's [handlers] and [_layer], whether
    the health view has been constructed and wired to the registry, the
    number of handler objects created so far, the observable effects of
    the registry, and the exceptions the property notifier has logged. *)
Record World := {
  sources : gmap pykey nat;
  devices : gmap nat Device;
  wired : bool;
  handlers : gmap pykey Handler;
  active : gmap pykey nat;
  handlers_made : nat;
  trace : list Event;
  logged : list exn
}.

Definition set_sources (f : gmap pykey nat → gmap pykey nat) (w : World) : World :=
  {| sources := f (sources w); devices := devices w; wired := wired w;
     handlers := handlers w; active := active w;
     handlers_made := handlers_made w; trace := trace w; logged := logged w |}.

Definition set_devices (f : gmap nat Device → gmap nat Device) (w : World) : World :=
  {| sources := sources w; devices := f (devices w); wired := wired w;
     handlers := handlers w; active := active w;
     handlers_made := handlers_made w; trace := trace w; logged := logged w |}.

Definition set_wired (b : bool) (w : World) : World :=
  {| sources := sources w; devices := devices w; wired := b;
     handlers := handlers w; active := active w;
     handlers_made := handlers_made w; trace := trace w; logged := logged w |}.

Definition set_handlers (f : gmap pykey Handler → gmap pykey Handler) (w : World) : World :=
  {| sources := sources w; devices := devices w; wired := wired w;
     handlers := f (handlers w); active := active w;
     handlers_made := handlers_made w; trace := trace w; logged := logged w |}.

Definition set_active (f : gmap pykey nat → gmap pykey nat) (w : World) : World :=
  {| sources := sources w; devices := devices w; wired := wired w;
     handlers := handlers w; active := f (active w);
     handlers_made := handlers_made w; trace := trace w; logged := logged w |}.

Definition set_handlers_made (n : nat) (w : World) : World :=
  {| sources := sources w; devices := devices w; wired := wired w;
     handlers := handlers w; active := active w;
     handlers_made := n; trace := trace w; logged := logged w |}.

Definition emit (e : Event) (w : World) : World :=
  {| sources := sources w; devices := devices w; wired := wired w;
     handlers := handlers w; active := active w;
     handlers_made := handlers_made w; trace := trace w ++ [e]; logged := logged w |}.

Definition log_exn (e : exn) (w : World) : World :=
  {| sources := sources w; devices := devices w; wired := wired w;
     handlers := handlers w; active := active w;
     handlers_made := handlers_made w; trace := trace w; logged := logged w ++ [e] |}.

Definition empty_world : World :=
  {| sources := ∅; devices := ∅; wired := false; handlers := ∅; active := ∅;
     handlers_made := 0; trace := []; logged := [] |}.

(** *** Device objects *)

Module SdrSource.

Definition set_enabled (b : bool) (d : Device) : Device :=
  {| dev_id := dev_id d; dev_name := dev_name d; enabled := b;
     failed := failed d; clients := clients d |}.

Definition set_failed (b : bool) (d : Device) : Device :=
  {| dev_id := dev_id d; dev_name := dev_name d; enabled := enabled d;
     failed := b; clients := clients d |}.

Definition set_clients (f : list Handler → list Handler) (d : Device) : Device :=
  {| dev_id := dev_id d; dev_name := dev_name d; enabled := enabled d;
     failed := failed d; clients := f (clients d) |}.

(** Reading the state of the object [source].  An identity held by the
    registry or by a handler always denotes an object of the heap; the
    answers for an identity that denotes none (not enabled, failed, no
    listener) only make the functions total. *)
Definition isEnabled (source : nat) (w : World) : bool :=
  match devices w !! source with Some d => enabled d | None => false end.

Definition isFailed (source : nat) (w : World) : bool :=
  match devices w !! source with Some d => failed d | None => true end.

Definition getClients (source : nat) (w : World) : list Handler :=
  match devices w !! source with Some d => clients d | None => [] end.

Definition addClient (source : nat) (c : Handler) : M World unit :=
  modify (set_devices (alter (set_clients (λ l, l ++ [c])) source)).

(** Removing a listener that is not registered does nothing. *)
Definition removeClient (source : nat) (c : Handler) : M World unit :=
  modify (set_devices (alter (set_clients (filter (λ c', c' ≠ c))) source)).

End SdrSource.

(** *** [SourceStateHandler] *)

(** Modelled from the spec: [PropertyLayer] (owrx.property) is not among
    the sources; it is the health view's overlay, embedded as the Python
    dict it wraps.  Item deletion of a key that is not there raises
    [KeyError], as the guard in [ActiveSdrSources._removeSource] supposes.
    The notification each mutation sends on to [AvailableProfiles] is
    followed in the module of that name. *)
Definition active_setitem (key : pykey) (source : nat) : M World unit :=
  modify (set_active <[key := source]>).

Definition active_delitem (key : pykey) : M World unit :=
  λ w, match active w !! key with
       | Some _ => (Ok tt, set_active (delete key) w)
       | None => (Raise (KeyError key), w)
       end.

Module SourceStateHandler.

(** [selfDestruct]: self.source.removeClient(self) *)
Definition selfDestruct (h : Handler) : M World unit :=
  SdrSource.removeClient (hsource h) h.

(** [onFail]: del self.pm[self.key] *)
Definition onFail (h : Handler) : M World unit :=
  active_delitem (hkey h).

(** [onDisable]: del self.pm[self.key] *)
Definition onDisable (h : Handler) : M World unit :=
  active_delitem (hkey h).

(** [onEnable]: self.pm[self.key] = self.source *)
Definition onEnable (h : Handler) : M World unit :=
  active_setitem (hkey h) (hsource h).

(** [onShutdown]: del self.pm[self.key] *)
Definition onShutdown (h : Handler) : M World unit :=
  active_delitem (hkey h).

End SourceStateHandler.

(** *** Lifecycle transitions of a device *)

Inductive Callback := OnFail | OnDisable | OnEnable | OnShutdown.

Definition deliver (cb : Callback) (h : Handler) : M World unit :=
  match cb with
  | OnFail => SourceStateHandler.onFail h
  | OnDisable => SourceStateHandler.onDisable h
  | OnEnable => SourceStateHandler.onEnable h
  | OnShutdown => SourceStateHandler.onShutdown h
  end.

Module Lifecycle.

(** Modelled from the spec: the transitions of [SdrSource] (owrx.source),
    which is not among the sources.  The spec has the device fire the
    lifecycle callbacks (fail/disable/enable/shutdown) on its registered
    listeners, on the thread of the transition; each transition below
    updates the flag it is named after and then calls the listeners in
    the order they registered, an exception of a listener propagating to
    the caller of the transition. *)
Definition fire (source : nat) (cb : Callback) : M World unit :=
  let* cs := gets (SdrSource.getClients source) in
  for_each cs (deliver cb).

Definition fail (source : nat) : M World unit :=
  modify (set_devices (alter (SdrSource.set_failed true) source)) >>
  fire source OnFail.

Definition disable (source : nat) : M World unit :=
  modify (set_devices (alter (SdrSource.set_enabled false) source)) >>
  fire source OnDisable.

Definition enable (source : nat) : M World unit :=
  modify (set_devices (alter (SdrSource.set_enabled true) source)) >>
  fire source OnEnable.

Definition shutdown (source : nat) : M World unit :=
  modify (emit (ShutdownCalled source)) >>
  fire source OnShutdown.

End Lifecycle.

(** *** [ActiveSdrSources] *)

Module ActiveSdrSources.

(** [isAvailable]: source.isEnabled() and not source.isFailed() *)
Definition isAvailable (source : nat) (w : World) : bool :=
  SdrSource.isEnabled source w && negb (SdrSource.isFailed source w).

(** The constructor call [SourceStateHandler(self._layer, key, source)]. *)
Definition newHandler (key : pykey) (source : nat) : M World Handler :=
  λ w, (Ok {| hid := handlers_made w; hkey := key; hsource := source |},
        set_handlers_made (Datatypes.S (handlers_made w)) w).

(** [_addSource]:
    if self.isAvailable(source): self._layer[key] = source
    self.handlers[key] = SourceStateHandler(self._layer, key, source)
    source.addClient(self.handlers[key]) *)
Definition _addSource (key : pykey) (source : nat) : M World unit :=
  let* available := gets (isAvailable source) in
  (if available then active_setitem key source else ret tt) >>
  let* h := newHandler key source in
  modify (set_handlers <[key := h]>) >>
  SdrSource.addClient source h.

(** [self.handlers[key]]: a Python dict lookup. *)
Definition handlers_getitem (key : pykey) : M World Handler :=
  λ w, match handlers w !! key with
       | Some h => (Ok h, w)
       | None => (Raise (KeyError key), w)
       end.

(** [_removeSource]:
    self.handlers[key].selfDestruct()
    del self.handlers[key]
    if key in self._layer: del self._layer[key] *)
Definition _removeSource (key : pykey) : M World unit :=
  let* h := handlers_getitem key in
  SourceStateHandler.selfDestruct h >>
  modify (set_handlers (delete key)) >>
  let* present := gets (λ w, bool_decide (is_Some (active w !! key))) in
  if present then active_delitem key else ret tt.

(** [handleSdrDeviceChange]; [None] is the marker [PropertyDeleted]. *)
Definition handleSdrDeviceChange (changes : list (pykey * option nat)) : M World unit :=
  for_each changes (λ '(key, value),
    match value with
    | None => _removeSource key
    | Some source => _addSource key source
    end).

(** [__init__]: fresh [handlers] and [_layer], one [_addSource] per item
    of the registry, then [pm.wire(self.handleSdrDeviceChange)]. *)
Definition __init__ : M World unit :=
  modify (set_handlers (λ _, ∅)) >>
  modify (set_active (λ _, ∅)) >>
  let* items := gets (λ w, map_to_list (sources w)) in
  for_each items (λ item, _addSource item.1 item.2) >>
  modify (set_wired true).

End ActiveSdrSources.

(** Modelled from the spec: the notification of [PropertyManager]
    (owrx.property), which is not among the sources.  A mutation of the
    registry's layer is delivered, before the mutating call returns, to
    the watcher the health view wired; per the spec's propagation policy a
    failure of a watcher surfaces as a log entry and does not unwind the
    operation that notified it. *)
Definition notify (key : pykey) (value : option nat) : M World unit :=
  λ w, if wired w then
         match ActiveSdrSources.handleSdrDeviceChange [(key, value)] w with
         | (Ok _, w') => (Ok tt, w')
         | (Raise e, w') => (Ok tt, log_exn e w')
         end
       else (Ok tt, w).

(** *** [MappedSdrSources] *)

Inductive change :=
| Upsert (value : ConfigEntry)
| PropertyDeleted.

Module MappedSdrSources.

Section Host.

(** [FeatureDetector().is_available]: [Some b] is the answer for a known
    type, [None] stands for [UnknownFeatureException]. *)
Variable is_available : string → option bool.

(** [_sdrTypeAvailable]: false (with an error logged) when the type is
    unavailable and when it is unknown. *)
Definition _sdrTypeAvailable (value : ConfigEntry) : bool :=
  match is_available (cfg_type value) with
  | Some b => b
  | None => false
  end.

Definition isDeviceValid (device : ConfigEntry) : bool :=
  _sdrTypeAvailable device.

(** [buildNewSource]: the constructor of the driver class of the type,
    called for types the host has available and taken to return; it
    yields a new device object, which has not failed, has no listeners,
    and reads its [enabled] flag from its properties. *)
Definition buildNewSource (id : pykey) (props : ConfigEntry) : M World nat :=
  λ w, let p := fresh (dom (devices w)) in
       (Ok p,
        set_devices <[p := {| dev_id := id; dev_name := cfg_name props;
                              enabled := cfg_enabled props; failed := false;
                              clients := [] |}]> w).

(** [_removeSource]: source.shutdown() *)
Definition _removeSource (key : pykey) (source : nat) : M World unit :=
  Lifecycle.shutdown source.

(** [super().__setitem__] and [super().__delitem__]: the delegator hands
    the mutation to its layer, which stores it and notifies. *)
Definition layer_setitem (key : pykey) (value : nat) : M World unit :=
  modify (set_sources <[key := value]>) >>
  modify (emit (Installed key value)) >>
  notify key (Some value).

Definition layer_delitem (key : pykey) : M World unit :=
  let* present := gets (λ w, sources w !! key) in
  match present with
  | Some _ =>
      modify (set_sources (delete key)) >>
      modify (emit (Removed key)) >>
      notify key None
  | None => raise (KeyError key)
  end.

(** [__setitem__]:
    source = self[key] if key in self else None
    if source is value: return
    super().__setitem__(key, value)
    if source is not None: self._removeSource(key, source) *)
Definition __setitem__ (key : pykey) (value : nat) : M World unit :=
  let* source := gets (λ w, sources w !! key) in
  if decide (source = Some value) then ret tt
  else
    layer_setitem key value >>
    match source with
    | Some old => _removeSource key old
    | None => ret tt
    end.

(** [__delitem__]:
    source = self[key] if key in self else None
    super().__delitem__(key)
    if source is not None: self._removeSource(key, source) *)
Definition __delitem__ (key : pykey) : M World unit :=
  let* source := gets (λ w, sources w !! key) in
  layer_delitem key >>
  match source with
  | Some old => _removeSource key old
  | None => ret tt
  end.

(** [handleDeviceUpdate]:
    if key not in self and self.isDeviceValid(value):
        self[key] = self.buildNewSource(key, value)
    elif key in self and not self.isDeviceValid(value):
        del self[key] *)
Definition handleDeviceUpdate (key : pykey) (value : ConfigEntry) : M World unit :=
  let* present := gets (λ w, bool_decide (is_Some (sources w !! key))) in
  if negb present && isDeviceValid value then
    let* p := buildNewSource key value in
    __setitem__ key p
  else if present && negb (isDeviceValid value) then
    __delitem__ key
  else ret tt.

Definition _addSource (key : pykey) (value : ConfigEntry) : M World unit :=
  handleDeviceUpdate key value.

(** The body of the loop of [handleSdrDeviceChange]:
    if value is PropertyDeleted:
        if key in self: del self[key]
    else:
        if key not in self: self._addSource(key, value) *)
Definition handleChange (c : pykey * change) : M World unit :=
  let* present := gets (λ w, bool_decide (is_Some (sources w !! c.1))) in
  match c.2 with
  | PropertyDeleted => if present then __delitem__ c.1 else ret tt
  | Upsert entry => if present then ret tt else _addSource c.1 entry
  end.

(** [handleSdrDeviceChange]: for key, value in changes.items(): ... *)
Definition handleSdrDeviceChange (changes : list (pykey * change)) : M World unit :=
  for_each changes handleChange.

(** [__init__]: one [_addSource] per item of the configuration. *)
Definition __init__ (pm : gmap pykey ConfigEntry) : M World unit :=
  for_each (map_to_list pm) (λ item, _addSource item.1 item.2).

End Host.

End MappedSdrSources.

(** *** [SdrService]: the process-wide composition *)

Module SdrService.

Section Host.
Variable is_available : string → option bool.

(** The first [getAllSources()]: [MappedSdrSources(Config.get()["sdrs"])]. *)
Definition getAllSources (sdrs : gmap pykey ConfigEntry) : World :=
  snd (MappedSdrSources.__init__ is_available sdrs empty_world).

(** [getActiveSources()]: builds the health view over the registry on the
    first call, and is the identity afterwards. *)
Definition getActiveSources : M World unit :=
  λ w, if wired w then (Ok tt, w) else ActiveSdrSources.__init__ w.

(** What can happen to the running service: the configuration delivers a
    change batch to the registry, a device fails, is disabled or enabled,
    or somebody asks for the health view. *)
Inductive Step :=
| ConfigChange (changes : list (pykey * change))
| DeviceFails (source : nat)
| DeviceDisabled (source : nat)
| DeviceEnabled (source : nat)
| ActiveSourcesRequested.

Definition perform (s : Step) : M World unit :=
  match s with
  | ConfigChange changes => MappedSdrSources.handleSdrDeviceChange is_available changes
  | DeviceFails p => Lifecycle.fail p
  | DeviceDisabled p => Lifecycle.disable p
  | DeviceEnabled p => Lifecycle.enable p
  | ActiveSourcesRequested => getActiveSources
  end.

(** The state once a step has been processed, whether it returned or
    raised. *)
Definition step (w : World) (s : Step) : World := snd (perform s w).

Definition run (w : World) (steps : list Step) : World := foldl step w steps.

End Host.

(** The configuration a change batch describes. *)
Definition apply_change (cfg : gmap pykey ConfigEntry) (c : pykey * change)
    : gmap pykey ConfigEntry :=
  match c.2 with
  | Upsert value => <[c.1 := value]> cfg
  | PropertyDeleted => delete c.1 cfg
  end.

Definition config_step (cfg : gmap pykey ConfigEntry) (s : Step) : gmap pykey ConfigEntry :=
  match s with
  | ConfigChange changes => foldl apply_change cfg changes
  | _ => cfg
  end.

Definition config_after (cfg : gmap pykey ConfigEntry) (steps : list Step)
    : gmap pykey ConfigEntry :=
  foldl config_step cfg steps.

End SdrService.

(** ** Properties of the reporting engine *)

Module ReportingFacts.
Import ReportingEngine.

(** The reporters of [rs] that accept mode [m], as delivery records. *)
Definition accepted (m : pykey) (spot : gmap string pykey) (rs : list Reporter)
    : list (nat * gmap string pykey) :=
  (λ r, (rid r, spot)) <$> filter (λ r, m ∈ getSupportedModes r) rs.

Lemma offer_with_mode spot m r e :
  spot !! "mode"%string = Some m →
  offer spot r e
  = (Ok tt, {| reporters := reporters e;
               delivered := delivered e ++ accepted m spot [r] |}).
Proof.
  intros Hm. unfold offer, bind, spot_mode, accepted. rewrite Hm. simpl.
  rewrite filter_cons, filter_nil.
  destruct (decide (m ∈ getSupportedModes r)) as [Hin|Hin].
  - by rewrite bool_decide_eq_true_2.
  - rewrite bool_decide_eq_false_2 by done. simpl.
    rewrite app_nil_r. by destruct e.
Qed.

Lemma spot_loop_with_mode spot m rs e :
  spot !! "mode"%string = Some m →
  for_each rs (offer spot) e
  = (Ok tt, {| reporters := reporters e;
               delivered := delivered e ++ accepted m spot rs |}).
Proof.
  intros Hm. revert e.
  induction rs as [|r rs IH]; intros e.
  - simpl. unfold ret, accepted. simpl. rewrite app_nil_r. by destruct e.
  - change (for_each (r :: rs) (offer spot) e)
      with (bind (offer spot r) (λ _, for_each rs (offer spot)) e).
    unfold bind. rewrite (offer_with_mode spot m r e Hm), IH. simpl.
    unfold accepted. rewrite (filter_cons _ r rs), filter_cons, filter_nil.
    destruct (decide (m ∈ getSupportedModes r)); simpl;
      by rewrite <- app_assoc.
Qed.

(** C9: a spot carrying mode [m] is handed to exactly the registered
    reporters whose supported modes contain [m], once each and in the
    order of the reporter list; the call returns normally and no other
    reporter is handed anything. *)
Theorem spot_reaches_supporting_reporters (e : Engine) (ev : gmap string pykey) (m : pykey) :
  ev !! "mode"%string = Some m →
  spot ev e = (Ok tt, {| reporters := reporters e;
                         delivered := delivered e ++ accepted m ev (reporters e) |}).
Proof.
  intros Hm. unfold spot, bind, gets.
  by apply spot_loop_with_mode.
Qed.

(** C8, as the code has it: [spot] checks nothing before its loop.  For a
    spot without a mode field it raises the [KeyError] of the field
    lookup when a reporter is registered, and returns normally when none
    is; either way no reporter is handed the spot. *)
Theorem spot_without_mode (e : Engine) (ev : gmap string pykey) :
  ev !! "mode"%string = None →
  spot ev e =
    (match reporters e with
     | [] => Ok tt
     | _ :: _ => Raise (KeyError (KStr "mode"))
     end, e).
Proof.
  intros Hm. unfold spot, bind, gets.
  destruct (reporters e) as [|r rs]; simpl; [done|].
  unfold bind, offer, bind, spot_mode. by rewrite Hm.
Qed.

End ReportingFacts.

Module ReportingExamples.
Import ReportingEngine ReportingFacts.

Definition R1 : Reporter :=
  {| rid := 1; getSupportedModes := [KStr "FT8"; KStr "FT4"] |}.
Definition R2 : Reporter :=
  {| rid := 2; getSupportedModes := [KStr "WSPR"] |}.
Definition engine : Engine := {| reporters := [R1; R2]; delivered := [] |}.
Definition idle_engine : Engine := {| reporters := []; delivered := [] |}.
Definition ft8_spot : gmap string pykey :=
  {[ "mode"%string := KStr "FT8"; "freq"%string := KInt 14074000 ]}.
Definition modeless_spot : gmap string pykey :=
  {[ "freq"%string := KInt 14074000 ]}.

Lemma spot_reaches_supporting_reporters_witness :
  ft8_spot !! "mode"%string = Some (KStr "FT8") ∧
  spot ft8_spot engine
  = (Ok tt, {| reporters := [R1; R2]; delivered := [(1, ft8_spot)] |}).
Proof.
  split; [reflexivity|].
  apply (spot_reaches_supporting_reporters engine ft8_spot (KStr "FT8")).
  reflexivity.
Defined.

(** C8 fails on the code: with a reporter registered, a spot without a
    mode field makes [spot] raise the [KeyError] of the missing field, and
    with no reporter registered [spot] returns normally. *)
Lemma spot_without_mode_is_not_validated :
  modeless_spot !! "mode"%string = None ∧
  spot modeless_spot engine = (Raise (KeyError (KStr "mode")), engine) ∧
  spot modeless_spot idle_engine = (Ok tt, idle_engine).
Proof. repeat split; reflexivity. Qed.

Lemma spot_without_mode_witness :
  modeless_spot !! "mode"%string = None ∧
  spot modeless_spot engine = (Raise (KeyError (KStr "mode")), engine).
Proof.
  split; [reflexivity|].
  apply (spot_without_mode engine modeless_spot). reflexivity.
Defined.

End ReportingExamples.

(** ** Properties of the profile catalogue *)

Module ProfileFacts.
Import AvailableProfiles.

(** The catalogue once the subscriptions [l] stored under [key] have been
    drained from the end: the list under [key] is empty, every element of
    [l] has been cancelled, last first. *)
Definition drained (key : pykey) (l : list nat) (c : Catalog) : Catalog :=
  {| layer := layer c;
     subscriptions := <[key := []]> (subscriptions c);
     issued := issued c;
     live := foldl (λ L s, L ∖ {[s]}) (live c) (rev l);
     cancelled := cancelled c ++ rev l |}.

Lemma drain_spec key l : ∀ c n,
  subscriptions c !! key = Some l →
  length l ≤ n →
  drain n key c = (Ok tt, drained key l c).
Proof.
  induction l as [|s l IH] using rev_ind; intros c n Hl Hn.
  - unfold drained. simpl. rewrite app_nil_r, insert_id by done.
    destruct n as [|n]; simpl.
    + by destruct c.
    + unfold bind, pop. rewrite Hl. simpl. by destruct c.
  - destruct n as [|n]; [rewrite length_app in Hn; simpl in Hn; lia|].
    simpl. unfold bind at 1. unfold pop. rewrite Hl, last_snoc.
    unfold bind at 1. unfold cancel, modify.
    rewrite removelast_last.
    rewrite (IH _ n).
    + unfold drained, set_subscriptions. simpl.
      rewrite insert_insert_eq, rev_app_distr. simpl.
      by rewrite <- app_assoc.
    + simpl. by rewrite lookup_insert_eq.
    + rewrite length_app in Hn. simpl in Hn. lia.
Qed.

Lemma elem_of_drained_live (l : list nat) (L : gset nat) (s : nat) :
  s ∈ foldl (λ L s, L ∖ {[s]}) L l ↔ s ∈ L ∧ s ∉ l.
Proof.
  revert L. induction l as [|x l IH]; intros L; simpl.
  - rewrite elem_of_nil. tauto.
  - rewrite IH, elem_of_difference, elem_of_singleton, elem_of_cons.
    split; [intros [[? ?] ?]|intros [? ?]]; repeat split; auto.
    intros [?|?]; auto.
Qed.

(** What [_removeSource] leaves behind when the raw key has an overlay
    entry. *)
Lemma removeSource_present key v c :
  layer c !! key = Some v →
  _removeSource key c =
    (Ok tt,
     match subscriptions c !! key with
     | Some l =>
         set_subscriptions (delete key) (drained key l (set_layer (delete key) c))
     | None => set_layer (delete key) c
     end).
Proof.
  intros Hk. unfold _removeSource, bind at 1, layer_delitem. rewrite Hk.
  unfold bind at 1, gets. simpl.
  destruct (subscriptions c !! key) as [l|] eqn:Hl; [|done].
  unfold bind. rewrite (drain_spec key l) by done. done.
Qed.

(** [_removeSource] deletes under the raw key without looking first: a
    raw key without an overlay entry raises, and nothing is cancelled. *)
Lemma removeSource_absent key c :
  layer c !! key = None →
  _removeSource key c = (Raise (KeyError key), c).
Proof.
  intros Hk. unfold _removeSource, bind, layer_delitem. by rewrite Hk.
Qed.

Lemma addSource_spec key source c :
  _addSource key source c =
    (Ok tt,
     {| layer := <[KStr (format_key key) := getName source]> (layer c);
        subscriptions := <[key := [issued c]]> (subscriptions c);
        issued := Datatypes.S (issued c);
        live := {[issued c]} ∪ live c;
        cancelled := cancelled c |}).
Proof. reflexivity. Qed.


(** C10, as the code has it: [_addSource] files the name under the
    formatted key and the subscription under the raw key; for a string id
    that has no entry yet, removing it afterwards gives back the overlay
    and the subscription map from before the add; and when the raw key
    has no overlay entry after the add (a formatted key that differs from
    it), the removal raises on its unconditional delete. *)
Theorem add_then_remove (c : Catalog) (key : pykey) (source : Source) :
  layer c !! KStr (format_key key) = None →
  subscriptions c !! key = None →
  let c1 := snd (_addSource key source c) in
  layer c1 = <[KStr (format_key key) := getName source]> (layer c) ∧
  subscriptions c1 = <[key := [issued c]]> (subscriptions c) ∧
  (∀ s, key = KStr s →
     fst (_removeSource key c1) = Ok tt ∧
     layer (snd (_removeSource key c1)) = layer c ∧
     subscriptions (snd (_removeSource key c1)) = subscriptions c) ∧
  (layer c1 !! key = None →
     _removeSource key c1 = (Raise (KeyError key), c1)).
Proof.
  intros Hlayer Hsubs. rewrite addSource_spec. simpl.
  repeat split; try done.
  - subst key. simpl.
    by erewrite removeSource_present by apply lookup_insert_eq.
  - subst key. simpl in *.
    erewrite removeSource_present by apply lookup_insert_eq. simpl.
    rewrite lookup_insert_eq. simpl. by rewrite delete_insert_id.
  - subst key. simpl in *.
    erewrite removeSource_present by apply lookup_insert_eq. simpl.
    rewrite lookup_insert_eq. simpl.
    by rewrite delete_insert_eq, delete_insert_id.
  - intros Hraw. by apply removeSource_absent.
Qed.

End ProfileFacts.

Module ProfileExamples.
Import AvailableProfiles ProfileFacts.

Definition dev_a : Source := {| getName := "Dev A" |}.
Definition dev_a_renamed : Source := {| getName := "Dev A2" |}.



Lemma add_then_remove_witness :
  layer (snd (_removeSource (KStr "a") (snd (_addSource (KStr "a") dev_a empty))))
  = layer empty.
Proof.
  destruct (add_then_remove empty (KStr "a") dev_a eq_refl eq_refl)
    as (_ & _ & Hback & _).
  apply (Hback "a"%string eq_refl).
Defined.

(** C10 fails as stated for an id that is already in the catalogue:
    adding ["a"] a second time and then removing it does not give back
    the overlay entry and the stored subscription of the first add, and
    the first subscription is still registered. *)
Lemma add_then_remove_of_present_key :
  let before := snd (_addSource (KStr "a") dev_a empty) in
  let after :=
    snd (_removeSource (KStr "a") (snd (_addSource (KStr "a") dev_a_renamed before))) in
  layer before !! KStr "a" = Some "Dev A"%string ∧
  layer after !! KStr "a" = None ∧
  subscriptions before !! KStr "a" = Some [0] ∧
  subscriptions after !! KStr "a" = None ∧
  elements (live after) = [0].
Proof. repeat split; reflexivity. Qed.

(** An integer id is filed under its numeral, so its removal raises and
    leaves the entry and the subscription behind. *)
Example add_then_remove_of_integer_key :
  let c1 := snd (_addSource (KInt 7) dev_a empty) in
  layer c1 !! KStr "7" = Some "Dev A"%string ∧
  _removeSource (KInt 7) c1 = (Raise (KeyError (KInt 7)), c1).
Proof. split; reflexivity. Qed.

End ProfileExamples.

(** ** Reasoning about monadic code *)

Section MonadFacts.
Context {S : Type}.

Lemma bind_ok {A B} (m : M S A) (k : A → M S B) s a s' :
  m s = (Ok a, s') → bind m k s = k a s'.
Proof. intros H. unfold bind. by rewrite H. Qed.

Lemma bind_raise {A B} (m : M S A) (k : A → M S B) s e s' :
  m s = (Raise e, s') → bind m k s = (Raise e, s').
Proof. intros H. unfold bind. by rewrite H. Qed.

Lemma for_each_app {A} (l1 l2 : list A) (body : A → M S unit) s s1 :
  for_each l1 body s = (Ok tt, s1) →
  for_each (l1 ++ l2) body s = for_each l2 body s1.
Proof.
  revert s. induction l1 as [|x l1 IH]; intros s H; simpl in *.
  - unfold ret in H. by simplify_eq.
  - unfold bind in *. destruct (body x s) as [[[]|e] s2]; [|done].
    by apply IH.
Qed.

(** [m] never takes a state out of relation [R] with the state it was
    started in, whether it returns or raises. *)
Definition preserves {A} (R : S → S → Prop) (m : M S A) : Prop :=
  ∀ s, R s (snd (m s)).

Lemma preserves_ret {A} (R : S → S → Prop) `{!Reflexive R} (a : A) :
  preserves R (ret a).
Proof. intros s. simpl. reflexivity. Qed.

Lemma preserves_raise {A} (R : S → S → Prop) `{!Reflexive R} e :
  preserves R (raise (A := A) e).
Proof. intros s. simpl. reflexivity. Qed.

Lemma preserves_gets {A} (R : S → S → Prop) `{!Reflexive R} (f : S → A) :
  preserves R (gets f).
Proof. intros s. simpl. reflexivity. Qed.

Lemma preserves_bind {A B} (R : S → S → Prop) `{!Transitive R}
    (m : M S A) (k : A → M S B) :
  preserves R m → (∀ a, preserves R (k a)) → preserves R (bind m k).
Proof.
  intros Hm Hk s. unfold bind. specialize (Hm s).
  destruct (m s) as [[a|e] s1]; simpl in *; [|done].
  etrans; [exact Hm|apply Hk].
Qed.

Lemma preserves_for_each {A} (R : S → S → Prop) `{!Reflexive R, !Transitive R}
    (l : list A) (body : A → M S unit) :
  (∀ x, preserves R (body x)) → preserves R (for_each l body).
Proof.
  intros Hbody. induction l as [|x l IH]; simpl.
  - by apply preserves_ret.
  - apply preserves_bind; auto.
Qed.

End MonadFacts.

(** ** Properties of the registry operations *)

Module RegistryFacts.
Import MappedSdrSources.

(** The registry's own state: what the health view and the device
    callbacks never touch. *)
Definition same_registry (w w' : World) : Prop :=
  sources w' = sources w ∧ trace w' = trace w ∧ wired w' = wired w.

#[local] Instance same_registry_refl : Reflexive same_registry.
Proof. by intros w. Qed.

#[local] Instance same_registry_trans : Transitive same_registry.
Proof. intros w1 w2 w3 (?&?&?) (?&?&?). repeat split; congruence. Qed.

Lemma active_delitem_registry key : preserves same_registry (active_delitem key).
Proof. intros w. unfold active_delitem. by destruct (active w !! key). Qed.

Lemma deliver_registry cb h : preserves same_registry (deliver cb h).
Proof. destruct cb; simpl; try apply active_delitem_registry; by intros w. Qed.

Lemma fire_registry p cb : preserves same_registry (Lifecycle.fire p cb).
Proof.
  apply preserves_bind; [apply _|by apply preserves_gets|].
  intros cs. apply preserves_for_each; try apply _. apply deliver_registry.
Qed.

Lemma active_addSource_registry key p :
  preserves same_registry (ActiveSdrSources._addSource key p).
Proof.
  unfold ActiveSdrSources._addSource.
  apply preserves_bind; [apply _|by apply preserves_gets|intros available].
  apply preserves_bind; [apply _|destruct available; by intros w|intros _].
  apply preserves_bind; [apply _|by intros w|intros h].
  apply preserves_bind; [apply _|by intros w|intros _].
  by intros w.
Qed.

Lemma active_removeSource_registry key :
  preserves same_registry (ActiveSdrSources._removeSource key).
Proof.
  unfold ActiveSdrSources._removeSource.
  apply preserves_bind; [apply _| |intros h].
  { intros w. unfold ActiveSdrSources.handlers_getitem.
    by destruct (handlers w !! key). }
  apply preserves_bind; [apply _|by intros w|intros _].
  apply preserves_bind; [apply _|by intros w|intros _].
  apply preserves_bind; [apply _|by apply preserves_gets|intros present].
  destruct present; [apply active_delitem_registry|by intros w].
Qed.

Lemma active_handle_registry changes :
  preserves same_registry (ActiveSdrSources.handleSdrDeviceChange changes).
Proof.
  apply preserves_for_each; try apply _. intros [key [p|]].
  - apply active_addSource_registry.
  - apply active_removeSource_registry.
Qed.

(** A notification always returns, and leaves the registry as it was. *)
Lemma notify_returns key value w :
  ∃ w', notify key value w = (Ok tt, w') ∧ same_registry w w'.
Proof.
  unfold notify. destruct (wired w); [|by eexists].
  pose proof (active_handle_registry [(key, value)] w) as H.
  destruct (ActiveSdrSources.handleSdrDeviceChange [(key, value)] w)
    as [[[]|e] w1]; simpl in H; eexists; split; done.
Qed.

Lemma shutdown_spec old w :
  let w' := snd (Lifecycle.shutdown old w) in
  sources w' = sources w ∧ trace w' = trace w ++ [ShutdownCalled old].
Proof.
  simpl. unfold Lifecycle.shutdown.
  rewrite (bind_ok _ _ w tt (emit (ShutdownCalled old) w)) by done.
  destruct (fire_registry old OnShutdown (emit (ShutdownCalled old) w)) as (Hs&Ht&_).
  by rewrite Hs, Ht.
Qed.

Lemma delitem_present key old w :
  sources w !! key = Some old →
  let w' := snd (__delitem__ key w) in
  sources w' = delete key (sources w) ∧
  trace w' = trace w ++ [Removed key; ShutdownCalled old].
Proof.
  intros Hk. simpl. unfold __delitem__.
  rewrite (bind_ok _ _ w (Some old) w) by (unfold gets; by rewrite Hk).
  destruct (notify_returns key None
              (emit (Removed key) (set_sources (delete key) w)))
    as (w1 & Hn & Hs & Ht & _).
  rewrite (bind_ok _ _ w tt w1).
  - destruct (shutdown_spec old w1) as [Hs' Ht']. unfold _removeSource.
    rewrite Hs', Ht', Hs, Ht. simpl. by rewrite <- app_assoc.
  - unfold layer_delitem.
    rewrite (bind_ok _ _ w (Some old) w) by (unfold gets; by rewrite Hk).
    by rewrite (bind_ok _ _ w tt (set_sources (delete key) w)),
      (bind_ok _ _ _ tt (emit (Removed key) (set_sources (delete key) w))).
Qed.

Lemma setitem_replaces key old new w :
  sources w !! key = Some old →
  new ≠ old →
  let w' := snd (__setitem__ key new w) in
  sources w' = <[key := new]> (sources w) ∧
  trace w' = trace w ++ [Installed key new; ShutdownCalled old].
Proof.
  intros Hk Hne. simpl. unfold __setitem__.
  rewrite (bind_ok _ _ w (Some old) w) by (unfold gets; by rewrite Hk).
  rewrite decide_False by congruence.
  destruct (notify_returns key (Some new)
              (emit (Installed key new) (set_sources <[key := new]> w)))
    as (w1 & Hn & Hs & Ht & _).
  rewrite (bind_ok _ _ w tt w1).
  - destruct (shutdown_spec old w1) as [Hs' Ht']. unfold _removeSource.
    rewrite Hs', Ht', Hs, Ht. simpl. by rewrite <- app_assoc.
  - unfold layer_setitem.
    by rewrite (bind_ok _ _ w tt (set_sources <[key := new]> w)),
      (bind_ok _ _ _ tt (emit (Installed key new) (set_sources <[key := new]> w))).
Qed.

Lemma setitem_identical key old w :
  sources w !! key = Some old →
  __setitem__ key old w = (Ok tt, w).
Proof.
  intros Hk. unfold __setitem__, bind, gets. rewrite Hk.
  by rewrite decide_True.
Qed.

(** C6: on a key that holds the proxy [old], deleting the key and
    storing another proxy under it each invoke [old.shutdown()] once (and
    no other shutdown), after the registry layer has been changed; storing
    [old] itself changes nothing at all. *)
Theorem replacing_or_removing_shuts_down_once (w : World) (key : pykey) (old : nat) :
  sources w !! key = Some old →
  (sources (snd (__delitem__ key w)) = delete key (sources w) ∧
   trace (snd (__delitem__ key w)) = trace w ++ [Removed key; ShutdownCalled old]) ∧
  (∀ new, new ≠ old →
     sources (snd (__setitem__ key new w)) = <[key := new]> (sources w) ∧
     trace (snd (__setitem__ key new w))
     = trace w ++ [Installed key new; ShutdownCalled old]) ∧
  __setitem__ key old w = (Ok tt, w).
Proof.
  intros Hk. split; [|split].
  - by apply delitem_present.
  - intros new Hne. by apply setitem_replaces.
  - by apply setitem_identical.
Qed.

Section Host.
Variable is_available : string → option bool.

Lemma upsert_present_step key old entry w :
  sources w !! key = Some old →
  handleSdrDeviceChange is_available [(key, Upsert entry)] w = (Ok tt, w).
Proof.
  intros Hk. unfold handleSdrDeviceChange, for_each.
  rewrite (bind_ok _ _ w tt w); [done|]. unfold handleChange.
  rewrite (bind_ok _ _ w true w); [done|].
  unfold gets. simpl. by rewrite Hk, bool_decide_eq_true_2.
Qed.

(** C3, as the code has it: an upsert of a key the registry already
    holds is skipped, wherever it stands in the batch: the batch is
    processed as if the upsert were not in it, so the proxy stays and no
    shutdown is invoked for it.  A proxy is replaced only by an item
    assignment on the registry, which stores the new proxy and then
    invokes the old one's shutdown. *)
Theorem upsert_of_present_key_is_skipped
    (w w1 : World) (pre post : list (pykey * change))
    (key : pykey) (old : nat) (entry : ConfigEntry) :
  handleSdrDeviceChange is_available pre w = (Ok tt, w1) →
  sources w1 !! key = Some old →
  handleSdrDeviceChange is_available (pre ++ (key, Upsert entry) :: post) w
  = handleSdrDeviceChange is_available post w1 ∧
  handleSdrDeviceChange is_available [(key, Upsert entry)] w1 = (Ok tt, w1) ∧
  (∀ new, new ≠ old →
     sources (snd (__setitem__ key new w1)) = <[key := new]> (sources w1) ∧
     trace (snd (__setitem__ key new w1))
     = trace w1 ++ [Installed key new; ShutdownCalled old]).
Proof.
  intros Hpre Hk. split; [|split].
  - unfold handleSdrDeviceChange.
    erewrite for_each_app by exact Hpre.
    change (for_each ((key, Upsert entry) :: post) ?f w1)
      with (bind (f (key, Upsert entry)) (λ _, for_each post f) w1).
    rewrite (bind_ok _ _ w1 tt w1); [done|]. unfold handleChange.
    rewrite (bind_ok _ _ w1 true w1); [done|].
    unfold gets. simpl. by rewrite Hk, bool_decide_eq_true_2.
  - by eapply upsert_present_step.
  - intros new Hne. by apply setitem_replaces.
Qed.

End Host.

End RegistryFacts.

(** ** The invariant of the running service *)

Module SystemFacts.
Import RegistryFacts.

(** [isAvailable] on the heap of devices. *)
Definition avail (devs : gmap nat Device) (p : nat) : bool :=
  match devs !! p with
  | Some d => enabled d && negb (failed d)
  | None => false
  end.

(** The health view is linked to the keys of [T]: no two keys of [T]
    share a device, the device of a key of [T] has the key's handler as
    its one listener, and no other device has a listener. *)
Record Linked (T : gmap pykey nat) (devs : gmap nat Device)
    (hs : gmap pykey Handler) : Prop := {
  linked_inj : ∀ k1 k2 p, T !! k1 = Some p → T !! k2 = Some p → k1 = k2;
  linked_handler : ∀ k p, T !! k = Some p →
    ∃ d h, devs !! p = Some d ∧ hs !! k = Some h ∧
           hkey h = k ∧ hsource h = p ∧ clients d = [h];
  linked_idle : ∀ p d,
    devs !! p = Some d → (∀ k, T !! k ≠ Some p) → clients d = []
}.

(** The overlay [act] holds exactly the keys of [T] whose device is
    available, each with its device. *)
Definition Mirrors (T : gmap pykey nat) (devs : gmap nat Device)
    (act : gmap pykey nat) : Prop :=
  ∀ k p, act !! k = Some p ↔ T !! k = Some p ∧ avail devs p = true.

Lemma isAvailable_avail p w :
  ActiveSdrSources.isAvailable p w = avail (devices w) p.
Proof.
  unfold ActiveSdrSources.isAvailable, SdrSource.isEnabled, SdrSource.isFailed, avail.
  by destruct (devices w !! p).
Qed.

Lemma avail_alter_ne f p q devs :
  p ≠ q → avail (alter f p devs) q = avail devs q.
Proof. intros Hne. unfold avail. by rewrite lookup_alter_ne. Qed.

Lemma avail_alter_clients g p q devs :
  avail (alter (SdrSource.set_clients g) p devs) q = avail devs q.
Proof.
  unfold avail. destruct (decide (p = q)) as [->|Hne].
  - rewrite lookup_alter_eq. by destruct (devs !! q).
  - by rewrite lookup_alter_ne.
Qed.

Lemma linked_empty devs hs :
  (∀ p d, devs !! p = Some d → clients d = []) → Linked ∅ devs hs.
Proof.
  intros Hidle. split.
  - intros k1 k2 p H. by rewrite lookup_empty in H.
  - intros k p H. by rewrite lookup_empty in H.
  - eauto.
Qed.

Lemma mirrors_empty devs : Mirrors ∅ devs ∅.
Proof.
  intros k p. rewrite !lookup_empty. split; [done|]. by intros [? _].
Qed.

(** A device that has just been built joins the heap without a listener. *)
Lemma linked_new_device T devs hs p d :
  Linked T devs hs →
  devs !! p = None →
  clients d = [] →
  Linked T (<[p := d]> devs) hs.
Proof.
  intros [Hinj Hlink Hidle] Hp Hd. split; [done|..].
  - intros k q Hk. destruct (Hlink k q Hk) as (d' & h & Hq & Hh).
    exists d', h. split; [|done].
    rewrite lookup_insert_ne; [done|]. intros ->. congruence.
  - intros q d' Hq Hnone. destruct (decide (p = q)) as [->|Hne].
    + rewrite lookup_insert_eq in Hq. congruence.
    + rewrite lookup_insert_ne in Hq by done. eauto.
Qed.

Lemma mirrors_new_device T devs hs act p d :
  Linked T devs hs →
  Mirrors T devs act →
  devs !! p = None →
  Mirrors T (<[p := d]> devs) act.
Proof.
  intros [_ Hlink _] Hact Hp k q. rewrite (Hact k q).
  split; intros [Hk Hav]; split; try done;
    destruct (Hlink k q Hk) as (d' & h & Hq & _); unfold avail in *.
  - rewrite lookup_insert_ne; [done|]. intros ->. congruence.
  - rewrite lookup_insert_ne in Hav; [done|]. intros ->. congruence.
Qed.

(** [ActiveSdrSources._addSource] on a key and a device that are not
    followed yet. *)
Lemma linked_add T devs hs k p d h :
  Linked T devs hs →
  T !! k = None →
  (∀ k', T !! k' ≠ Some p) →
  devs !! p = Some d →
  hkey h = k → hsource h = p →
  Linked (<[k := p]> T)
    (alter (SdrSource.set_clients (λ l, l ++ [h])) p devs)
    (<[k := h]> hs).
Proof.
  intros [Hinj Hlink Hidle] Hk Hp Hd Hhk Hhs. split.
  - intros k1 k2 q H1 H2.
    apply lookup_insert_Some in H1 as [[<- <-]|[Hne1 H1]];
      apply lookup_insert_Some in H2 as [[<- ?]|[Hne2 H2]]; subst; try done.
    + by destruct (Hp k2).
    + by destruct (Hp k1).
    + eauto.
  - intros k1 q H1. apply lookup_insert_Some in H1 as [[<- <-]|[Hne1 H1]].
    + exists (SdrSource.set_clients (λ l, l ++ [h]) d), h.
      rewrite lookup_alter_eq, Hd, lookup_insert_eq. simpl.
      by rewrite (Hidle p d Hd Hp).
    + destruct (Hlink k1 q H1) as (d' & h' & Hq & Hh' & Hrest).
      exists d', h'. rewrite lookup_insert_ne by done.
      rewrite lookup_alter_ne; [done|]. intros <-. by destruct (Hp k1).
  - intros q d' Hq Hnone. destruct (decide (p = q)) as [<-|Hne].
    + destruct (Hnone k). by rewrite lookup_insert_eq.
    + rewrite lookup_alter_ne in Hq by done. apply (Hidle q d' Hq).
      intros k' Hk'. apply (Hnone k'). rewrite lookup_insert_ne; [done|].
      intros <-. congruence.
Qed.

Lemma mirrors_add T devs act k p g :
  Mirrors T devs act →
  T !! k = None →
  Mirrors (<[k := p]> T)
    (alter (SdrSource.set_clients g) p devs)
    (if avail devs p then <[k := p]> act else act).
Proof.
  intros Hact Hk k1 q. rewrite avail_alter_clients.
  destruct (decide (k = k1)) as [<-|Hne].
  - rewrite lookup_insert_eq. destruct (avail devs p) eqn:Hav.
    + rewrite lookup_insert_eq. split; [intros [= <-]|intros [[= <-] _]]; done.
    + split.
      * intros Ha. apply Hact in Ha as [Ha _]. congruence.
      * intros [[= <-] ?]. congruence.
  - rewrite lookup_insert_ne by done.
    destruct (avail devs p); [rewrite lookup_insert_ne by done|]; apply Hact.
Qed.

(** [ActiveSdrSources._removeSource] on a followed key. *)
Lemma linked_remove T devs hs k p h :
  Linked T devs hs →
  T !! k = Some p →
  hs !! k = Some h →
  Linked (delete k T)
    (alter (SdrSource.set_clients (filter (λ c', c' ≠ h))) p devs)
    (delete k hs).
Proof.
  intros [Hinj Hlink Hidle] Hk Hh. split.
  - intros k1 k2 q H1 H2.
    apply lookup_delete_Some in H1 as [_ H1].
    apply lookup_delete_Some in H2 as [_ H2]. eauto.
  - intros k1 q H1. apply lookup_delete_Some in H1 as [Hne H1].
    destruct (Hlink k1 q H1) as (d' & h' & Hq & Hh' & Hrest).
    exists d', h'. rewrite lookup_delete_ne by done.
    rewrite lookup_alter_ne; [done|]. intros <-. apply Hne. eauto.
  - intros q d' Hq Hnone. destruct (decide (p = q)) as [<-|Hne].
    + destruct (Hlink k p Hk) as (d & h' & Hd & Hh' & _ & _ & Hcl).
      rewrite lookup_alter_eq, Hd in Hq. simpl in Hq. simplify_eq.
      simpl. rewrite Hcl. rewrite filter_cons, decide_False, filter_nil; [done|].
      intros Hneq. by apply Hneq.
    + rewrite lookup_alter_ne in Hq by done. apply (Hidle q d' Hq).
      intros k' Hk'. destruct (decide (k = k')) as [<-|Hnek]; [congruence|].
      apply (Hnone k'). by rewrite lookup_delete_ne.
Qed.

Lemma mirrors_remove T devs act k p g :
  Mirrors T devs act →
  Mirrors (delete k T) (alter (SdrSource.set_clients g) p devs) (delete k act).
Proof.
  intros Hact k1 q. rewrite avail_alter_clients.
  destruct (decide (k = k1)) as [<-|Hne].
  - rewrite !lookup_delete_eq. split; [done|]. by intros [? _].
  - rewrite !lookup_delete_ne by done. apply Hact.
Qed.

(** A flag of a device changes; its listeners stay. *)
Lemma linked_flag T devs hs p f :
  Linked T devs hs →
  (∀ d, clients (f d) = clients d) →
  Linked T (alter f p devs) hs.
Proof.
  intros [Hinj Hlink Hidle] Hf. split; [done|..].
  - intros k1 q H1. destruct (Hlink k1 q H1) as (d' & h' & Hq & Hh' & ? & ? & Hcl).
    destruct (decide (p = q)) as [<-|Hne].
    + exists (f d'), h'. rewrite lookup_alter_eq, Hq. simpl. by rewrite Hf.
    + exists d', h'. by rewrite lookup_alter_ne.
  - intros q d' Hq Hnone. destruct (decide (p = q)) as [<-|Hne].
    + rewrite lookup_alter_eq in Hq. destruct (devs !! p) as [d|] eqn:Hd; [|done].
      simpl in Hq. simplify_eq. rewrite Hf. eauto.
    + rewrite lookup_alter_ne in Hq by done. eauto.
Qed.

Lemma mirrors_flag_unfollowed T devs act p f :
  Mirrors T devs act →
  (∀ k, T !! k ≠ Some p) →
  Mirrors T (alter f p devs) act.
Proof.
  intros Hact Hp k q. rewrite (Hact k q).
  split; intros [Hk Hav]; split; try done.
  - rewrite avail_alter_ne; [done|]. intros <-. by destruct (Hp k).
  - rewrite avail_alter_ne in Hav; [done|]. intros <-. by destruct (Hp k).
Qed.

(** A flag of the device followed under [k] changes, and the device's
    handler brings the overlay in line: the key is dropped when the
    device is no longer available, stored when it is. *)
Lemma mirrors_flag_followed T devs hs act k p f :
  Linked T devs hs →
  Mirrors T devs act →
  T !! k = Some p →
  Mirrors T (alter f p devs)
    (if avail (alter f p devs) p then <[k := p]> act else delete k act).
Proof.
  intros [Hinj _ _] Hact Hk k1 q. destruct (decide (k = k1)) as [<-|Hne].
  - destruct (avail (alter f p devs) p) eqn:Hav.
    + rewrite lookup_insert_eq. split; [intros [= <-]|intros [? _]]; [done|congruence].
    + rewrite lookup_delete_eq. split; [done|]. intros [? ?]. congruence.
  - assert (act !! k1 = Some q ↔ T !! k1 = Some q ∧ avail (alter f p devs) q = true)
      as Hgoal.
    { rewrite (Hact k1 q). split; intros [Hk1 Hav]; split; try done.
      - rewrite avail_alter_ne; [done|]. intros <-. apply Hne. eauto.
      - rewrite avail_alter_ne in Hav; [done|]. intros <-. apply Hne. eauto. }
    destruct (avail (alter f p devs) p);
      [by rewrite lookup_insert_ne|by rewrite lookup_delete_ne].
Qed.

(** *** What the health view's operations compute *)

Lemma active_addSource_spec k p w :
  ActiveSdrSources._addSource k p w =
    (Ok tt,
     let h := {| hid := handlers_made w; hkey := k; hsource := p |} in
     {| sources := sources w;
        devices := alter (SdrSource.set_clients (λ l, l ++ [h])) p (devices w);
        wired := wired w;
        handlers := <[k := h]> (handlers w);
        active := if avail (devices w) p then <[k := p]> (active w) else active w;
        handlers_made := Datatypes.S (handlers_made w);
        trace := trace w;
        logged := logged w |}).
Proof.
  unfold ActiveSdrSources._addSource.
  rewrite (bind_ok _ _ w (avail (devices w) p) w)
    by (unfold gets; by rewrite isAvailable_avail).
  by destruct (avail (devices w) p).
Qed.

Lemma active_removeSource_spec k h w :
  handlers w !! k = Some h →
  ActiveSdrSources._removeSource k w =
    (Ok tt,
     {| sources := sources w;
        devices := alter (SdrSource.set_clients (filter (λ c', c' ≠ h)))
                     (hsource h) (devices w);
        wired := wired w;
        handlers := delete k (handlers w);
        active := delete k (active w);
        handlers_made := handlers_made w;
        trace := trace w;
        logged := logged w |}).
Proof.
  intros Hh. unfold ActiveSdrSources._removeSource.
  rewrite (bind_ok _ _ w h w)
    by (unfold ActiveSdrSources.handlers_getitem; by rewrite Hh).
  unfold SourceStateHandler.selfDestruct, SdrSource.removeClient.
  rewrite (bind_ok _ _ w tt _) by reflexivity.
  rewrite (bind_ok _ _ _ tt _) by reflexivity.
  unfold bind, gets, active_delitem. simpl.
  destruct (active w !! k) as [q|] eqn:Hq.
  - rewrite bool_decide_eq_true_2 by eauto. simpl. by rewrite Hq.
  - rewrite bool_decide_eq_false_2 by (by intros [? ?]).
    simpl. unfold ret, set_handlers, set_devices. simpl.
    by rewrite (delete_id _ _ Hq).
Qed.

Lemma fire_idle p cb w :
  SdrSource.getClients p w = [] → Lifecycle.fire p cb w = (Ok tt, w).
Proof.
  intros Hc. unfold Lifecycle.fire.
  by rewrite (bind_ok _ _ w [] w) by (unfold gets; by rewrite Hc).
Qed.

(** A device with one listener fires a callback that makes the handler
    delete its key: the key is gone afterwards, and the call raises when
    it was not there. *)
Lemma fire_single_drop p cb h w :
  SdrSource.getClients p w = [h] →
  cb ≠ OnEnable →
  Lifecycle.fire p cb w =
    (match active w !! hkey h with
     | Some _ => Ok tt
     | None => Raise (KeyError (hkey h))
     end, set_active (delete (hkey h)) w).
Proof.
  intros Hc Hcb. unfold Lifecycle.fire.
  rewrite (bind_ok _ _ w [h] w) by (unfold gets; by rewrite Hc).
  simpl. unfold bind.
  assert (deliver cb h = active_delitem (hkey h)) as -> by by destruct cb.
  unfold active_delitem. destruct (active w !! hkey h) eqn:Hk; [done|].
  unfold set_active. rewrite (delete_id _ _ Hk). by destruct w.
Qed.

Lemma fire_single_enable p h w :
  SdrSource.getClients p w = [h] →
  Lifecycle.fire p OnEnable w =
    (Ok tt, set_active <[hkey h := hsource h]> w).
Proof.
  intros Hc. unfold Lifecycle.fire.
  by rewrite (bind_ok _ _ w [h] w) by (unfold gets; by rewrite Hc).
Qed.

(** *** The invariant *)

(** The keys the health view follows: those of the registry once it has
    been built and wired, none before. *)
Definition followed (w : World) : gmap pykey nat :=
  if wired w then sources w else ∅.

(** The structure every step keeps: the health view is linked to the
    keys it follows, every proxy of the registry is a device of the heap,
    and no two keys of the registry hold the same proxy. *)
Record Inv (w : World) : Prop := {
  inv_linked : Linked (followed w) (devices w) (handlers w);
  inv_heap : ∀ k p, sources w !! k = Some p → is_Some (devices w !! p);
  inv_inj : ∀ k1 k2 p, sources w !! k1 = Some p → sources w !! k2 = Some p → k1 = k2
}.

(** Invariant 2 of the spec, with the devices: the overlay of the health
    view holds exactly the followed keys whose device is enabled and not
    failed. *)
Definition Healthy (w : World) : Prop :=
  Mirrors (followed w) (devices w) (active w).

Lemma Inv_empty_world : Inv empty_world.
Proof.
  split; simpl.
  - apply linked_empty. intros p d H. by rewrite lookup_empty in H.
  - intros k p H. by rewrite lookup_empty in H.
  - intros k1 k2 p H. by rewrite lookup_empty in H.
Qed.

Lemma Healthy_empty_world : Healthy empty_world.
Proof. apply mirrors_empty. Qed.

(** Whether some followed key holds the device [p]. *)
Lemma followed_or_not (T : gmap pykey nat) (p : nat) :
  (∃ k : pykey, T !! k = Some p) ∨ (∀ k : pykey, T !! k ≠ Some p).
Proof.
  destruct (decide (map_Exists (λ (_ : pykey) (q : nat), q = p) T)) as [H|H].
  - left. destruct H as (k & q & Hk & ->). eauto.
  - right. intros k Hk. apply H. by exists k, p.
Qed.

(** *** Lifecycle transitions keep the invariant *)

(** The shape of [fail], [disable] and [enable]: update the device with
    [f], then fire [cb]. *)
Definition transition (f : Device → Device) (cb : Callback) (p : nat) : M World unit :=
  modify (set_devices (alter f p)) >> Lifecycle.fire p cb.

Definition overlay_update (cb : Callback) (k : pykey) (p : nat)
    : gmap pykey nat → gmap pykey nat :=
  match cb with
  | OnEnable => <[k := p]>
  | _ => delete k
  end.

Lemma transition_post f cb p w :
  Inv w →
  (∀ d, clients (f d) = clients d) →
  (∃ k d h, followed w !! k = Some p ∧ devices w !! p = Some d ∧ clients d = [h] ∧
     snd (transition f cb p w)
     = set_active (overlay_update cb k p) (set_devices (alter f p) w)) ∨
  ((∀ k, followed w !! k ≠ Some p) ∧ SdrSource.getClients p w = [] ∧
     snd (transition f cb p w) = set_devices (alter f p) w).
Proof.
  intros [[Hinj Hlink Hidle] Hheap Hsinj] Hf. unfold transition.
  rewrite (bind_ok _ _ w tt (set_devices (alter f p) w)) by done.
  destruct (followed_or_not (followed w) p) as [[k Hk]|Hno].
  - left. destruct (Hlink k p Hk) as (d & h & Hd & Hh & Hhk & Hhs & Hcl).
    exists k, d, h. repeat split; try done.
    assert (SdrSource.getClients p (set_devices (alter f p) w) = [h]) as Hc.
    { unfold SdrSource.getClients. simpl. rewrite lookup_alter_eq, Hd. simpl.
      by rewrite Hf. }
    destruct cb; simpl;
      first [rewrite (fire_single_drop _ _ _ _ Hc) by done
            |rewrite (fire_single_enable _ _ _ Hc)];
      simpl; by rewrite Hhk, ?Hhs.
  - right. assert (SdrSource.getClients p w = []) as Hc0.
    { unfold SdrSource.getClients. destruct (devices w !! p) as [d|] eqn:Hd; eauto. }
    repeat split; try done. rewrite fire_idle; [done|].
    unfold SdrSource.getClients in *. simpl. rewrite lookup_alter_eq.
    destruct (devices w !! p) as [d|] eqn:Hd; simpl; [|done].
    by rewrite Hf.
Qed.

Lemma transition_Inv f cb p w :
  Inv w →
  (∀ d, clients (f d) = clients d) →
  Inv (snd (transition f cb p w)) ∧
  same_registry w (snd (transition f cb p w)).
Proof.
  intros HI Hf.
  assert (Inv (set_devices (alter f p) w)) as HI1.
  { destruct HI as [Hl Hheap Hsinj]. split; simpl; [|..|done].
    - by apply linked_flag.
    - intros k q Hk. apply lookup_alter_is_Some. eauto. }
  destruct (transition_post f cb p w HI Hf)
    as [(k & d & h & _ & _ & _ & ->)|(_ & _ & ->)]; [|done].
  split; [|done]. by destruct HI1.
Qed.

Lemma transition_Healthy f cb p w :
  Inv w →
  Healthy w →
  (∀ d, clients (f d) = clients d) →
  match cb with
  | OnEnable => SdrSource.getClients p w = [] ∨ avail (alter f p (devices w)) p = true
  | _ => avail (alter f p (devices w)) p = false
  end →
  Healthy (snd (transition f cb p w)).
Proof.
  intros HI HH Hf Hcb.
  destruct (transition_post f cb p w HI Hf)
    as [(k & d & h & Hk & Hd & Hcl & ->)|(Hno & _ & ->)].
  - unfold Healthy. simpl.
    pose proof (mirrors_flag_followed _ _ _ _ k p f (inv_linked w HI) HH Hk) as Hm.
    destruct cb; simpl; try (by rewrite Hcb in Hm).
    destruct Hcb as [Hc|Hav]; [|by rewrite Hav in Hm].
    unfold SdrSource.getClients in Hc. rewrite Hd, Hcl in Hc. done.
  - unfold Healthy. simpl. by apply mirrors_flag_unfollowed.
Qed.

Lemma avail_failed p devs :
  avail (alter (SdrSource.set_failed true) p devs) p = false.
Proof.
  unfold avail. rewrite lookup_alter_eq. destruct (devs !! p); simpl; [|done].
  apply andb_false_r.
Qed.

Lemma avail_disabled p devs :
  avail (alter (SdrSource.set_enabled false) p devs) p = false.
Proof.
  unfold avail. rewrite lookup_alter_eq. by destruct (devs !! p).
Qed.

Lemma avail_enabled p w :
  SdrSource.isFailed p w = false →
  avail (alter (SdrSource.set_enabled true) p (devices w)) p = true.
Proof.
  unfold SdrSource.isFailed, avail. rewrite lookup_alter_eq.
  destruct (devices w !! p); simpl; [|done]. by intros ->.
Qed.

(** *** Registry operations keep the invariant *)

Lemma notify_unwired key value w :
  wired w = false → notify key value w = (Ok tt, w).
Proof. intros Hw. unfold notify. by rewrite Hw. Qed.

Lemma notify_add_wired key p w :
  wired w = true →
  notify key (Some p) w = (Ok tt, snd (ActiveSdrSources._addSource key p w)).
Proof.
  intros Hw. unfold notify. rewrite Hw.
  unfold ActiveSdrSources.handleSdrDeviceChange, for_each.
  by rewrite (bind_ok _ _ w tt _ (active_addSource_spec key p w)),
    active_addSource_spec.
Qed.

Lemma notify_remove_wired key h w :
  wired w = true →
  handlers w !! key = Some h →
  notify key None w = (Ok tt, snd (ActiveSdrSources._removeSource key w)).
Proof.
  intros Hw Hh. unfold notify. rewrite Hw.
  unfold ActiveSdrSources.handleSdrDeviceChange, for_each.
  by rewrite (bind_ok _ _ w tt _ (active_removeSource_spec key h w Hh)),
    (active_removeSource_spec key h w Hh).
Qed.

Section Host.
Variable is_available : string → option bool.

Abbreviation buildNewSource := MappedSdrSources.buildNewSource.
Abbreviation __setitem__ := MappedSdrSources.__setitem__.
Abbreviation __delitem__ := MappedSdrSources.__delitem__.
Abbreviation handleDeviceUpdate := (MappedSdrSources.handleDeviceUpdate is_available).
Abbreviation isDeviceValid := (MappedSdrSources.isDeviceValid is_available).

(** An absent key gets a newly built device. *)
Lemma build_and_store key value w :
  Inv w →
  sources w !! key = None →
  ∃ w', (let* p := buildNewSource key value in __setitem__ key p) w = (Ok tt, w') ∧
        Inv w' ∧ wired w' = wired w ∧
        sources w' = <[key := fresh (dom (devices w))]> (sources w) ∧
        (Healthy w → Healthy w').
Proof.
  intros [Hl Hheap Hsinj] Hk.
  set (p := fresh (dom (devices w))).
  set (nd := {| dev_id := key; dev_name := cfg_name value;
                enabled := cfg_enabled value; failed := false; clients := [] |}).
  assert (devices w !! p = None) as Hp by apply not_elem_of_dom, is_fresh.
  assert (∀ k', sources w !! k' ≠ Some p) as Hnew.
  { intros k' Hk'. destruct (Hheap k' p Hk') as [d Hd]. congruence. }
  set (w1 := set_devices <[p := nd]> w).
  set (w2 := emit (Installed key p) (set_sources <[key := p]> w1)).
  rewrite (bind_ok _ _ w p w1) by done.
  unfold MappedSdrSources.__setitem__.
  rewrite (bind_ok _ _ w1 None w1) by (unfold gets; simpl; by rewrite Hk).
  rewrite decide_False by done.
  assert (∀ g k q, <[key := p]> (sources w) !! k = Some q →
                 is_Some (alter g p (<[p := nd]> (devices w)) !! q)) as Hheap'.
  { intros g k q Hq. apply lookup_alter_is_Some.
    apply lookup_insert_Some in Hq as [[_ <-]|[_ Hq]].
    - rewrite lookup_insert_eq. eauto.
    - apply lookup_insert_is_Some'. eauto. }
  assert (∀ k q, <[key := p]> (sources w) !! k = Some q →
                 is_Some (<[p := nd]> (devices w) !! q)) as Hheap''.
  { intros k q Hq. apply (lookup_alter_is_Some id _ p). by apply (Hheap' id k). }
  assert (∀ k1 k2 q, <[key := p]> (sources w) !! k1 = Some q →
                     <[key := p]> (sources w) !! k2 = Some q → k1 = k2) as Hsinj'.
  { intros k1 k2 q H1 H2.
    apply lookup_insert_Some in H1 as [[<- <-]|[Hne1 H1]];
      apply lookup_insert_Some in H2 as [[<- ?]|[Hne2 H2]]; subst; try done.
    - by destruct (Hnew k2).
    - by destruct (Hnew k1).
    - eauto. }
  destruct (wired w) eqn:Hw.
  - exists (snd (ActiveSdrSources._addSource key p w2)).
    rewrite (bind_ok _ _ w1 tt (snd (ActiveSdrSources._addSource key p w2))).
    2:{ unfold MappedSdrSources.layer_setitem.
        rewrite (bind_ok _ _ w1 tt (set_sources <[key := p]> w1)) by done.
        rewrite (bind_ok _ _ _ tt w2) by done.
        by apply notify_add_wired. }
    rewrite active_addSource_spec. simpl.
    unfold followed in Hl. rewrite Hw in Hl.
    split_and!; try done; [split; simpl; [|by eauto|done]|].
    + unfold followed. simpl. rewrite Hw.
      apply (linked_add (sources w) (<[p := nd]> (devices w)) (handlers w) key p nd
               {| hid := handlers_made w; hkey := key; hsource := p |});
        [by apply linked_new_device|done|done|apply lookup_insert_eq|done|done].
    + unfold Healthy, followed. simpl. rewrite Hw. intros HH.
      apply mirrors_add; [|done]. by eapply mirrors_new_device.
  - exists w2.
    rewrite (bind_ok _ _ w1 tt w2).
    2:{ unfold MappedSdrSources.layer_setitem.
        rewrite (bind_ok _ _ w1 tt (set_sources <[key := p]> w1)) by done.
        rewrite (bind_ok _ _ _ tt w2) by done.
        by apply notify_unwired. }
    unfold followed in Hl. rewrite Hw in Hl.
    split_and!; try done; [split; simpl; [|by eauto|done]|].
    + unfold followed. simpl. rewrite Hw. by apply linked_new_device.
    + unfold Healthy, followed. simpl. rewrite Hw. intros HH.
      by eapply mirrors_new_device.
Qed.

(** A key of the registry is deleted: its proxy is shut down, after the
    health view has let go of it. *)
Lemma delitem_Inv key p w :
  Inv w →
  sources w !! key = Some p →
  ∃ w', __delitem__ key w = (Ok tt, w') ∧
        Inv w' ∧ wired w' = wired w ∧
        sources w' = delete key (sources w) ∧
        (Healthy w → Healthy w').
Proof.
  intros [Hl Hheap Hsinj] Hk.
  set (w1 := emit (Removed key) (set_sources (delete key) w)).
  unfold MappedSdrSources.__delitem__.
  rewrite (bind_ok _ _ w (Some p) w) by (unfold gets; by rewrite Hk).
  assert (∀ g k q, delete key (sources w) !! k = Some q →
                   is_Some (alter g p (devices w) !! q)) as Hheap'.
  { intros g k q Hq. apply lookup_alter_is_Some.
    apply lookup_delete_Some in Hq as [_ Hq]. eauto. }
  assert (∀ k q, delete key (sources w) !! k = Some q → is_Some (devices w !! q))
    as Hheap''.
  { intros k q Hq. apply lookup_delete_Some in Hq as [_ Hq]. eauto. }
  assert (∀ k1 k2 q, delete key (sources w) !! k1 = Some q →
                     delete key (sources w) !! k2 = Some q → k1 = k2) as Hsinj'.
  { intros k1 k2 q H1 H2. apply lookup_delete_Some in H1 as [_ H1].
    apply lookup_delete_Some in H2 as [_ H2]. eauto. }
  assert (∀ w2, MappedSdrSources.layer_delitem key w = (Ok tt, w2) ↔
                notify key None w1 = (Ok tt, w2)) as Hlayer.
  { intros w2. unfold MappedSdrSources.layer_delitem.
    rewrite (bind_ok _ _ w (Some p) w) by (unfold gets; by rewrite Hk).
    rewrite (bind_ok _ _ w tt (set_sources (delete key) w)) by done.
    by rewrite (bind_ok _ _ _ tt w1) by done. }
  unfold MappedSdrSources._removeSource, Lifecycle.shutdown.
  destruct (wired w) eqn:Hw.
  - unfold followed in Hl. rewrite Hw in Hl.
    destruct (linked_handler _ _ _ Hl key p Hk) as (d & h & Hd & Hh & Hhk & Hhs & Hcl).
    set (w2 := snd (ActiveSdrSources._removeSource key w1)).
    rewrite (bind_ok _ _ w tt w2)
      by (apply Hlayer; by apply (notify_remove_wired key h)).
    rewrite (bind_ok _ _ w2 tt (emit (ShutdownCalled p) w2)) by done.
    assert (Linked (delete key (sources w))
              (alter (SdrSource.set_clients (filter (λ c', c' ≠ h))) p (devices w))
              (delete key (handlers w))) as Hl'
      by by apply linked_remove.
    rewrite fire_idle.
    2:{ unfold w2. rewrite (active_removeSource_spec key h w1 Hh).
        unfold SdrSource.getClients. simpl. rewrite Hhs, lookup_alter_eq, Hd.
        simpl. rewrite Hcl, filter_cons, decide_False, filter_nil; [done|].
        intros Hneq. by apply Hneq. }
    eexists. split; [done|].
    unfold w2. rewrite (active_removeSource_spec key h w1 Hh). simpl.
    rewrite Hhs. split_and!; try done; [split; simpl; [|by eauto|done]|].
    + unfold followed. simpl. by rewrite Hw.
    + unfold Healthy, followed. simpl. rewrite Hw. apply mirrors_remove.
  - unfold followed in Hl. rewrite Hw in Hl.
    rewrite (bind_ok _ _ w tt w1) by (apply Hlayer; by apply notify_unwired).
    rewrite (bind_ok _ _ w1 tt (emit (ShutdownCalled p) w1)) by done.
    rewrite fire_idle.
    2:{ unfold SdrSource.getClients. simpl.
        destruct (devices w !! p) as [d|] eqn:Hd; [|done].
        apply (linked_idle _ _ _ Hl p d Hd). intros k. by rewrite lookup_empty. }
    eexists. split; [done|]. split_and!; try done; [split; simpl; [|by eauto|done]|].
    + unfold followed. simpl. by rewrite Hw.
    + unfold Healthy, followed. simpl. by rewrite Hw.
Qed.

(** The registry against the configuration: every entry with an
    available type has a proxy, and every proxy has an entry. *)
Definition Synced (cfg : gmap pykey ConfigEntry) (w : World) : Prop :=
  (∀ k e, cfg !! k = Some e → isDeviceValid e = true → is_Some (sources w !! k)) ∧
  (∀ k, is_Some (sources w !! k) → is_Some (cfg !! k)).

Lemma synced_insert_kept key value cfg w :
  Synced cfg w →
  is_Some (sources w !! key) →
  Synced (<[key := value]> cfg) w.
Proof.
  intros [Hlow Hup] Hk. split.
  - intros k e He Hv. destruct (decide (key = k)) as [<-|Hne]; [done|].
    rewrite lookup_insert_ne in He by done. eauto.
  - intros k Hs. apply lookup_insert_is_Some'. eauto.
Qed.

Lemma synced_insert_skipped key value cfg w :
  Synced cfg w →
  isDeviceValid value = false →
  sources w !! key = None →
  Synced (<[key := value]> cfg) w.
Proof.
  intros [Hlow Hup] Hv Hk. split.
  - intros k e He Hve. destruct (decide (key = k)) as [<-|Hne].
    + rewrite lookup_insert_eq in He. congruence.
    + rewrite lookup_insert_ne in He by done. eauto.
  - intros k Hs. apply lookup_insert_is_Some'. eauto.
Qed.

Lemma synced_insert_stored key value p cfg w w' :
  Synced cfg w →
  sources w' = <[key := p]> (sources w) →
  Synced (<[key := value]> cfg) w'.
Proof.
  intros [Hlow Hup] Hs. unfold Synced. rewrite Hs. split.
  - intros k e He Hve. destruct (decide (key = k)) as [<-|Hne].
    + rewrite lookup_insert_eq. eauto.
    + rewrite lookup_insert_ne in He by done. rewrite lookup_insert_ne by done. eauto.
  - intros k Hk. apply lookup_insert_is_Some'.
    apply lookup_insert_is_Some' in Hk as [?|?]; eauto.
Qed.

Lemma synced_dropped key cfg cfg' w w' :
  Synced cfg w →
  sources w' = delete key (sources w) →
  (∀ k, k ≠ key → cfg' !! k = cfg !! k) →
  (∀ e, cfg' !! key = Some e → isDeviceValid e = false) →
  Synced cfg' w'.
Proof.
  intros [Hlow Hup] Hs Hother Hkey. unfold Synced. rewrite Hs. split.
  - intros k e He Hve. destruct (decide (key = k)) as [<-|Hne].
    + rewrite (Hkey e He) in Hve. done.
    + rewrite lookup_delete_ne by done. rewrite Hother in He by done. eauto.
  - intros k Hk. apply lookup_delete_is_Some in Hk as [Hne Hk].
    rewrite Hother by done. eauto.
Qed.

Lemma handleDeviceUpdate_step key value cfg w :
  Inv w →
  Synced cfg w →
  ∃ w', handleDeviceUpdate key value w = (Ok tt, w') ∧
        Inv w' ∧ wired w' = wired w ∧
        Synced (<[key := value]> cfg) w' ∧
        (Healthy w → Healthy w').
Proof.
  intros HI HS. unfold MappedSdrSources.handleDeviceUpdate.
  rewrite (bind_ok _ _ w (bool_decide (is_Some (sources w !! key))) w) by done.
  destruct (sources w !! key) as [p|] eqn:Hk.
  - rewrite bool_decide_eq_true_2 by eauto. simpl.
    destruct (isDeviceValid value) eqn:Hv; simpl.
    + exists w. split_and!; try done. apply synced_insert_kept; eauto.
    + destruct (delitem_Inv key p w HI Hk) as (w' & -> & HI' & Hw & Hs & HH).
      exists w'. split_and!; try done.
      eapply synced_dropped; [done..| |].
      * intros k Hne. by rewrite lookup_insert_ne.
      * intros e. rewrite lookup_insert_eq. by intros [= <-].
  - rewrite bool_decide_eq_false_2 by (by intros [? ?]). simpl.
    destruct (isDeviceValid value) eqn:Hv; simpl.
    + destruct (build_and_store key value w HI Hk) as (w' & -> & HI' & Hw & Hs & HH).
      exists w'. split_and!; try done. by eapply synced_insert_stored.
    + exists w. split_and!; try done. by apply synced_insert_skipped.
Qed.

Lemma handleChange_step c cfg w :
  Inv w →
  Synced cfg w →
  ∃ w', MappedSdrSources.handleChange is_available c w = (Ok tt, w') ∧
        Inv w' ∧ wired w' = wired w ∧
        Synced (SdrService.apply_change cfg c) w' ∧
        (Healthy w → Healthy w').
Proof.
  intros HI HS. destruct c as [key value].
  unfold MappedSdrSources.handleChange, SdrService.apply_change. simpl.
  rewrite (bind_ok _ _ w (bool_decide (is_Some (sources w !! key))) w) by done.
  destruct (sources w !! key) as [p|] eqn:Hk.
  - rewrite bool_decide_eq_true_2 by eauto. destruct value as [value|].
    + exists w. split_and!; try done. apply synced_insert_kept; eauto.
    + destruct (delitem_Inv key p w HI Hk) as (w' & -> & HI' & Hw & Hs & HH).
      exists w'. split_and!; try done.
      eapply synced_dropped; [done..| |].
      * intros k Hne. by rewrite lookup_delete_ne.
      * intros e. by rewrite lookup_delete_eq.
  - rewrite bool_decide_eq_false_2 by (by intros [? ?]). destruct value as [value|].
    + destruct (handleDeviceUpdate_step key value cfg w HI HS)
        as (w' & Hrun & HI' & Hw & HS' & HH).
      exists w'. by split_and!.
    + exists w. split_and!; try done.
      eapply synced_dropped; [done| | |].
      * by rewrite delete_id.
      * intros k Hne. by rewrite lookup_delete_ne.
      * intros e. by rewrite lookup_delete_eq.
Qed.

Lemma handleSdrDeviceChange_Inv changes : ∀ cfg w,
  Inv w →
  Synced cfg w →
  ∃ w', MappedSdrSources.handleSdrDeviceChange is_available changes w = (Ok tt, w') ∧
        Inv w' ∧ wired w' = wired w ∧
        Synced (foldl SdrService.apply_change cfg changes) w' ∧
        (Healthy w → Healthy w').
Proof.
  unfold MappedSdrSources.handleSdrDeviceChange.
  induction changes as [|c changes IH]; intros cfg w HI HS; simpl.
  - exists w. by split_and!.
  - destruct (handleChange_step c cfg w HI HS) as (w1 & Hrun & HI1 & Hw1 & HS1 & HH1).
    destruct (IH _ w1 HI1 HS1) as (w2 & Hrun2 & HI2 & Hw2 & HS2 & HH2).
    exists w2. rewrite (bind_ok _ _ w tt w1 Hrun).
    split_and!; try done; [congruence|auto].
Qed.

(** Storing the items of a list one after the other gives the map of the
    list, when no key repeats. *)
Lemma foldl_insert_list_to_map {V} (l : list (pykey * V)) : ∀ (m : gmap pykey V),
  NoDup l.*1 →
  foldl (λ m kv, <[kv.1 := kv.2]> m) m l = list_to_map l ∪ m.
Proof.
  induction l as [|[k v] l IH]; intros m Hnd.
  - simpl. by rewrite (left_id_L ∅ (∪)).
  - rewrite fmap_cons in Hnd. apply NoDup_cons in Hnd as [Hk Hnd].
    simpl. rewrite IH by done.
    rewrite <- insert_union_l. symmetry.
    apply insert_union_r. by apply not_elem_of_list_to_map_1.
Qed.

Lemma foldl_insert_map_to_list {V} (m : gmap pykey V) :
  foldl (λ m kv, <[kv.1 := kv.2]> m) ∅ (map_to_list m) = m.
Proof.
  rewrite foldl_insert_list_to_map by apply NoDup_fst_map_to_list.
  by rewrite (right_id_L ∅ (∪)), list_to_map_to_list.
Qed.

Lemma registry_init_loop (l : list (pykey * ConfigEntry)) : ∀ cfg w,
  Inv w →
  Synced cfg w →
  ∃ w', for_each l (λ item, MappedSdrSources._addSource is_available item.1 item.2) w
        = (Ok tt, w') ∧
        Inv w' ∧ wired w' = wired w ∧
        Synced (foldl (λ m kv, <[kv.1 := kv.2]> m) cfg l) w' ∧
        (Healthy w → Healthy w').
Proof.
  induction l as [|[k e] l IH]; intros cfg w HI HS; simpl.
  - exists w. by split_and!.
  - destruct (handleDeviceUpdate_step k e cfg w HI HS)
      as (w1 & Hrun & HI1 & Hw1 & HS1 & HH1).
    destruct (IH _ w1 HI1 HS1) as (w2 & Hrun2 & HI2 & Hw2 & HS2 & HH2).
    exists w2. unfold MappedSdrSources._addSource at 1.
    rewrite (bind_ok _ _ w tt w1 Hrun).
    split_and!; try done; [congruence|auto].
Qed.

Lemma getAllSources_Inv sdrs :
  let w := SdrService.getAllSources is_available sdrs in
  Inv w ∧ Synced sdrs w ∧ Healthy w ∧ wired w = false.
Proof.
  simpl. unfold SdrService.getAllSources, MappedSdrSources.__init__.
  destruct (registry_init_loop (map_to_list sdrs) ∅ empty_world)
    as (w & -> & HI & Hw & HS & HH).
  - apply Inv_empty_world.
  - split.
    + intros k e H. by rewrite lookup_empty in H.
    + intros k [? H]. simpl in H. by rewrite lookup_empty in H.
  - rewrite foldl_insert_map_to_list in HS.
    split_and!; try done. apply HH, Healthy_empty_world.
Qed.

(** *** Building the health view *)

Lemma active_init_loop (l : list (pykey * nat)) : ∀ T w,
  Linked T (devices w) (handlers w) →
  NoDup l.*1 →
  (∀ k p, (k, p) ∈ l →
     T !! k = None ∧ (∀ k', T !! k' ≠ Some p) ∧ is_Some (devices w !! p)) →
  (∀ k1 k2 p, (k1, p) ∈ l → (k2, p) ∈ l → k1 = k2) →
  ∃ w', for_each l (λ item, ActiveSdrSources._addSource item.1 item.2) w = (Ok tt, w') ∧
        Linked (foldl (λ m kv, <[kv.1 := kv.2]> m) T l) (devices w') (handlers w') ∧
        sources w' = sources w ∧ wired w' = wired w ∧
        (∀ q, is_Some (devices w' !! q) ↔ is_Some (devices w !! q)) ∧
        (Mirrors T (devices w) (active w) →
         Mirrors (foldl (λ m kv, <[kv.1 := kv.2]> m) T l) (devices w') (active w')).
Proof.
  induction l as [|[k p] l IH]; intros T w HL Hnd Hl Hinj.
  - exists w. by split_and!.
  - rewrite fmap_cons in Hnd. apply NoDup_cons in Hnd as [Hk Hnd]. simpl in Hk.
    destruct (Hl k p) as (HTk & Hp & [d Hd]); [by left|].
    change (for_each ((k, p) :: l) ?f w) with (bind (f (k, p)) (λ _, for_each l f) w).
    simpl. rewrite (bind_ok _ _ w tt _ (active_addSource_spec k p w)).
    set (h := {| hid := handlers_made w; hkey := k; hsource := p |}).
    match goal with |- ∃ w', for_each _ _ ?w0 = _ ∧ _ => set (w1 := w0) end.
    destruct (IH (<[k := p]> T) w1) as (w2 & Hrun & HL2 & Hs2 & Hw2 & Hd2 & HM2).
    + by apply (linked_add T (devices w) (handlers w) k p d h).
    + done.
    + intros k' p' Hin. destruct (Hl k' p') as (HTk' & Hp' & Hd'); [by right|].
      assert (k ≠ k') as Hne.
      { intros <-. apply Hk. apply list_elem_of_fmap. by exists (k, p'). }
      split_and!.
      * by rewrite lookup_insert_ne.
      * intros k''. destruct (decide (k = k'')) as [<-|Hne''].
        -- rewrite lookup_insert_eq. intros [= <-]. apply Hne.
           apply (Hinj k k' p); [by left|by right].
        -- rewrite lookup_insert_ne by done. apply Hp'.
      * simpl. by apply lookup_alter_is_Some.
    + intros k1 k2 q H1 H2. apply (Hinj k1 k2 q); by right.
    + exists w2. split_and!; try done.
      * intros q. rewrite Hd2. simpl. apply lookup_alter_is_Some.
      * intros HM. apply HM2. simpl. by apply mirrors_add.
Qed.

Lemma getActiveSources_Inv w :
  Inv w →
  ∃ w', SdrService.getActiveSources w = (Ok tt, w') ∧
        Inv w' ∧ sources w' = sources w ∧ wired w' = true ∧
        (Healthy w → Healthy w').
Proof.
  intros HI. unfold SdrService.getActiveSources.
  destruct (wired w) eqn:Hw; [exists w; by split_and!|].
  destruct HI as [HL Hheap Hsinj]. unfold followed in HL. rewrite Hw in HL.
  unfold ActiveSdrSources.__init__.
  rewrite (bind_ok _ _ w tt (set_handlers (λ _, ∅) w)) by done.
  set (w0 := set_active (λ _, ∅) (set_handlers (λ _, ∅) w)).
  rewrite (bind_ok _ _ _ tt w0) by done.
  rewrite (bind_ok _ _ w0 (map_to_list (sources w)) w0) by done.
  destruct (active_init_loop (map_to_list (sources w)) ∅ w0)
    as (w2 & Hrun & HL2 & Hs2 & Hw2 & Hd2 & HM2).
  - apply linked_empty. intros p d Hd. apply (linked_idle _ _ _ HL p d Hd).
    intros k. by rewrite lookup_empty.
  - apply NoDup_fst_map_to_list.
  - intros k p Hin. apply elem_of_map_to_list in Hin. split_and!.
    + apply lookup_empty.
    + intros k'. by rewrite lookup_empty.
    + simpl. eauto.
  - intros k1 k2 p H1 H2. apply elem_of_map_to_list in H1, H2. eauto.
  - rewrite foldl_insert_map_to_list in HL2, HM2.
    exists (set_wired true w2). rewrite (bind_ok _ _ w0 tt w2 Hrun).
    split_and!; try done.
    + split; simpl.
      * unfold followed. simpl. by rewrite Hs2.
      * intros k p Hk. apply Hd2. rewrite Hs2 in Hk. simpl in *. eauto.
      * rewrite Hs2. simpl. eauto.
    + intros _. unfold Healthy, followed. simpl. rewrite Hs2. apply HM2.
      apply mirrors_empty.
Qed.

(** *** Steps of the service *)

(** The steps the health view can keep up with: an enable is signalled to
    a handler only by a device that has not failed. *)
Definition admissible (w : World) (s : SdrService.Step) : bool :=
  match s with
  | SdrService.DeviceEnabled p =>
      bool_decide (SdrSource.getClients p w = []) || negb (SdrSource.isFailed p w)
  | _ => true
  end.

Fixpoint admissible_run (w : World) (steps : list SdrService.Step) : bool :=
  match steps with
  | [] => true
  | s :: rest =>
      admissible w s && admissible_run (SdrService.step is_available w s) rest
  end.

Lemma set_failed_clients d : clients (SdrSource.set_failed true d) = clients d.
Proof. done. Qed.

Lemma set_enabled_clients b d : clients (SdrSource.set_enabled b d) = clients d.
Proof. done. Qed.

Lemma step_Inv s cfg w :
  Inv w →
  Synced cfg w →
  Inv (SdrService.step is_available w s) ∧
  Synced (SdrService.config_step cfg s) (SdrService.step is_available w s).
Proof.
  intros HI HS. unfold SdrService.step.
  destruct s as [changes|p|p|p|]; simpl.
  - destruct (handleSdrDeviceChange_Inv changes cfg w HI HS) as (w' & -> & ? & _ & ? & _).
    done.
  - change (Lifecycle.fail p) with (transition (SdrSource.set_failed true) OnFail p).
    destruct (transition_Inv _ OnFail p w HI set_failed_clients) as [HI' (Hs & _)].
    split; [done|]. unfold Synced. by rewrite Hs.
  - change (Lifecycle.disable p)
      with (transition (SdrSource.set_enabled false) OnDisable p).
    destruct (transition_Inv _ OnDisable p w HI (set_enabled_clients false))
      as [HI' (Hs & _)].
    split; [done|]. unfold Synced. by rewrite Hs.
  - change (Lifecycle.enable p)
      with (transition (SdrSource.set_enabled true) OnEnable p).
    destruct (transition_Inv _ OnEnable p w HI (set_enabled_clients true))
      as [HI' (Hs & _)].
    split; [done|]. unfold Synced. by rewrite Hs.
  - destruct (getActiveSources_Inv w HI) as (w' & -> & HI' & Hs & _).
    split; [done|]. unfold Synced. simpl. by rewrite Hs.
Qed.

Lemma step_Healthy s cfg w :
  Inv w →
  Synced cfg w →
  Healthy w →
  admissible w s = true →
  Healthy (SdrService.step is_available w s).
Proof.
  intros HI HS HH Hadm. unfold SdrService.step.
  destruct s as [changes|p|p|p|]; simpl.
  - destruct (handleSdrDeviceChange_Inv changes cfg w HI HS)
      as (w' & -> & _ & _ & _ & HH').
    by apply HH'.
  - change (Lifecycle.fail p) with (transition (SdrSource.set_failed true) OnFail p).
    apply (transition_Healthy _ OnFail p w HI HH set_failed_clients), avail_failed.
  - change (Lifecycle.disable p)
      with (transition (SdrSource.set_enabled false) OnDisable p).
    apply (transition_Healthy _ OnDisable p w HI HH (set_enabled_clients false)),
      avail_disabled.
  - change (Lifecycle.enable p)
      with (transition (SdrSource.set_enabled true) OnEnable p).
    apply (transition_Healthy _ OnEnable p w HI HH (set_enabled_clients true)).
    simpl in Hadm. apply orb_true_iff in Hadm as [Hc|Hf].
    + left. by apply bool_decide_eq_true_1 in Hc.
    + right. apply avail_enabled. by apply negb_true_iff.
  - destruct (getActiveSources_Inv w HI) as (w' & -> & _ & _ & _ & HH'). by apply HH'.
Qed.

Lemma run_Inv steps : ∀ cfg w,
  Inv w →
  Synced cfg w →
  Inv (SdrService.run is_available w steps) ∧
  Synced (SdrService.config_after cfg steps) (SdrService.run is_available w steps).
Proof.
  induction steps as [|s steps IH]; intros cfg w HI HS; [done|].
  destruct (step_Inv s cfg w HI HS) as [HI' HS']. by apply IH.
Qed.

Lemma run_Healthy steps : ∀ cfg w,
  Inv w →
  Synced cfg w →
  Healthy w →
  admissible_run w steps = true →
  Healthy (SdrService.run is_available w steps).
Proof.
  induction steps as [|s steps IH]; intros cfg w HI HS HH Hadm; [done|].
  simpl in Hadm. apply andb_true_iff in Hadm as [Hs Hrest].
  destruct (step_Inv s cfg w HI HS) as [HI' HS'].
  apply (IH _ _ HI' HS'); [|done]. by eapply step_Healthy.
Qed.



(** X1: along the steps of the service (change batches from the
    configuration, device transitions, requests for the health view),
    once the health view exists every key of the registry has its handler
    in [handlers], that handler is the one listener of the key's device,
    and a device that is under no key of the registry has no listener. *)
Theorem registry_key_has_one_handler
    (sdrs : gmap pykey ConfigEntry) (steps : list SdrService.Step) :
  let w := SdrService.run is_available (SdrService.getAllSources is_available sdrs) steps in
  wired w = true →
  (∀ k p, sources w !! k = Some p →
     ∃ h, handlers w !! k = Some h ∧ hkey h = k ∧ hsource h = p ∧
          SdrSource.getClients p w = [h]) ∧
  (∀ q, (∀ k, sources w !! k ≠ Some q) → SdrSource.getClients q w = []).
Proof.
  simpl. intros Hw.
  destruct (getAllSources_Inv sdrs) as (HI & HS & _ & _).
  destruct (run_Inv steps sdrs _ HI HS) as [[HL _ _] _].
  unfold followed in HL. rewrite Hw in HL. split.
  - intros k p Hk.
    destruct (linked_handler _ _ _ HL k p Hk) as (d & h & Hd & Hh & Hhk & Hhs & Hcl).
    exists h. unfold SdrSource.getClients. by rewrite Hd.
  - intros q Hq. unfold SdrSource.getClients.
    destruct (devices _ !! q) as [d|] eqn:Hd; [|done].
    by apply (linked_idle _ _ _ HL q d Hd).
Qed.

End Host.

End SystemFacts.

(** ** Properties of the state handlers *)

Module HandlerFacts.
Import SourceStateHandler.

(** [onFail], [onDisable] and [onShutdown] are the same deletion. *)
Lemma drop_callbacks_agree h :
  onFail h = active_delitem (hkey h) ∧
  onDisable h = active_delitem (hkey h) ∧
  onShutdown h = active_delitem (hkey h).
Proof. done. Qed.

Lemma drop_present h p w :
  active w !! hkey h = Some p →
  active_delitem (hkey h) w = (Ok tt, set_active (delete (hkey h)) w).
Proof. intros H. unfold active_delitem. by rewrite H. Qed.

(** The deletion is not guarded: a key that is not in the overlay makes
    the callback raise. *)
Lemma drop_absent h w :
  active w !! hkey h = None →
  active_delitem (hkey h) w = (Raise (KeyError (hkey h)), w).
Proof. intros H. unfold active_delitem. by rewrite H. Qed.

Lemma enable_stores h w :
  onEnable h w = (Ok tt, set_active <[hkey h := hsource h]> w).
Proof. done. Qed.

End HandlerFacts.

(** ** Scenarios on a concrete host *)

Module Scenarios.
Import SystemFacts RegistryFacts.

(** A host on which ["rtlsdr"] devices can run, ["hackrf"] devices are
    known but cannot, and no other type is known. *)
Definition host (type : string) : option bool :=
  if decide (type = "rtlsdr"%string) then Some true
  else if decide (type = "hackrf"%string) then Some false
  else None.

Definition a : pykey := KStr "a".
Definition b : pykey := KStr "b".
Definition c : pykey := KStr "c".

Definition rtlsdr (name : string) : ConfigEntry :=
  {| cfg_type := "rtlsdr"; cfg_name := name; cfg_enabled := true |}.
Definition hackrf (name : string) : ConfigEntry :=
  {| cfg_type := "hackrf"; cfg_name := name; cfg_enabled := true |}.

(** The configuration of the spec's scenario: one device ["a"]. *)
Definition sdrs : gmap pykey ConfigEntry := {[ a := rtlsdr "Dev A" ]}.

(** The registry built from it, and the service once the health view
    exists as well. *)
Definition registry_only : World := SdrService.getAllSources host sdrs.
Definition service : World :=
  SdrService.run host registry_only [SdrService.ActiveSourcesRequested].

(** The handlers that are registered as listeners of some device and
    carry [key]. *)
Definition live_handlers (key : pykey) (w : World) : list Handler :=
  filter (λ h, hkey h = key) (concat (clients <$> (map_to_list (devices w)).*2)).

Example service_state :
  sources service !! a = Some 0 ∧
  active service !! a = Some 0 ∧
  live_handlers a service = [{| hid := 0; hkey := a; hsource := 0 |}] ∧
  trace service = [Installed a 0].
Proof. repeat split; reflexivity. Qed.



(** The same with the health view in place from the start; the disable
    of the failed device then raises in its handler on the way. *)
Example enabled_failed_device_is_listed_with_view :
  let w := SdrService.run host service
             [SdrService.DeviceFails 0; SdrService.DeviceDisabled 0;
              SdrService.DeviceEnabled 0] in
  active w !! a = Some 0 ∧ ActiveSdrSources.isAvailable 0 w = false.
Proof. split; reflexivity. Qed.

(** A run the health view keeps up with: the device fails, a second
    device is configured, the first is disabled, the second is removed. *)
Definition calm_steps : list SdrService.Step :=
  [SdrService.ActiveSourcesRequested; SdrService.DeviceFails 0;
   SdrService.ConfigChange [(b, Upsert (rtlsdr "Dev B"))];
   SdrService.DeviceDisabled 1; SdrService.DeviceEnabled 1;
   SdrService.ConfigChange [(a, PropertyDeleted)]].


Lemma registry_key_has_one_handler_witness :
  let w := SdrService.run host (SdrService.getAllSources host sdrs) calm_steps in
  ∃ h, handlers w !! b = Some h ∧ hkey h = b ∧ hsource h = 1 ∧
       SdrSource.getClients 1 w = [h].
Proof.
  destruct (registry_key_has_one_handler host sdrs calm_steps eq_refl) as [Hone _].
  apply (Hone b 1). reflexivity.
Defined.

(** C3 fails on the code: an upsert of ["a"], which the registry holds,
    leaves the world as it was: the proxy is the old one and no shutdown
    has been invoked. *)
Lemma upsert_of_present_key_replaces_nothing :
  MappedSdrSources.handleSdrDeviceChange host [(a, Upsert (rtlsdr "Dev A2"))] service
  = (Ok tt, service) ∧
  sources service !! a = Some 0 ∧
  trace service = [Installed a 0].
Proof. repeat split; reflexivity. Qed.

Lemma upsert_of_present_key_is_skipped_witness :
  MappedSdrSources.handleSdrDeviceChange host [(a, Upsert (rtlsdr "Dev A2"))] service
  = (Ok tt, service).
Proof.
  apply (upsert_of_present_key_is_skipped host service service [] []
           a 0 (rtlsdr "Dev A2")); reflexivity.
Defined.

Lemma replacing_or_removing_shuts_down_once_witness :
  trace (snd (MappedSdrSources.__delitem__ a service))
  = trace service ++ [Removed a; ShutdownCalled 0].
Proof.
  apply (replacing_or_removing_shuts_down_once service a 0). reflexivity.
Defined.


(** The same on the health view alone: a batch that names a followed key
    again registers a second handler with the device. *)
Example repeated_upsert_registers_twice :
  let w := snd (ActiveSdrSources.handleSdrDeviceChange [(a, Some 0)] service) in
  SdrSource.getClients 0 w = [{| hid := 0; hkey := a; hsource := 0 |};
                              {| hid := 1; hkey := a; hsource := 0 |}].
Proof. reflexivity. Qed.

(** C5 on the code: the device of ["a"] fails, which takes ["a"] out of
    the overlay, and is then disabled; the handler's [onDisable] deletes
    a key that is not there and raises. *)
Theorem disable_after_fail_raises :
  let w := SdrService.run host service [SdrService.DeviceFails 0] in
  active w !! a = None ∧
  SourceStateHandler.onDisable {| hid := 0; hkey := a; hsource := 0 |} w
  = (Raise (KeyError a), w) ∧
  fst (Lifecycle.disable 0 w) = Raise (KeyError a).
Proof. repeat split; reflexivity. Qed.

End Scenarios.

(** * Further coverage of [owrx/reporting.py] and [owrx/sdr.py] *)

(** ** The shared reporting engine *)

Module ReportingProcess.
Import ReportingEngine.

(** The class attributes of [ReportingEngine] and what its methods do to
    the reporters: [sharedInstance], the number of times the constructor
    has run, and the reporters whose [stop()] has been called, in order.
    The [creationLock] serialises the two static methods; they are
    followed here one call at a time. *)
Record Process := {
  sharedInstance : option Engine;
  constructed : nat;
  stopped : list nat
}.

Definition no_engine : Process :=
  {| sharedInstance := None; constructed := 0; stopped := [] |}.

Section Config.

(** [Config.get()["pskreporter_enabled"]] and the object [PskReporter()]
    yields. *)
Variable pskreporter_enabled : bool.
Variable PskReporter : Reporter.

(** [__init__]:
    self.reporters = []
    if Config.get()["pskreporter_enabled"]: self.reporters += [PskReporter()] *)
Definition __init__ : M Process Engine :=
  λ s, (Ok {| reporters := if pskreporter_enabled then [] ++ [PskReporter] else [];
              delivered := [] |},
        {| sharedInstance := sharedInstance s;
           constructed := Datatypes.S (constructed s);
           stopped := stopped s |}).

(** [getSharedInstance]:
    if ReportingEngine.sharedInstance is None:
        ReportingEngine.sharedInstance = ReportingEngine()
    return ReportingEngine.sharedInstance *)
Definition getSharedInstance : M Process Engine :=
  let* inst := gets sharedInstance in
  match inst with
  | Some e => ret e
  | None =>
      let* e := __init__ in
      modify (λ s, {| sharedInstance := Some e; constructed := constructed s;
                      stopped := stopped s |}) >>
      ret e
  end.

(** [Reporter.stop], as far as the engine can observe it. *)
Definition Reporter_stop (r : Reporter) : M Process unit :=
  modify (λ s, {| sharedInstance := sharedInstance s; constructed := constructed s;
                  stopped := stopped s ++ [rid r] |}).

(** [stop]: for r in self.reporters: r.stop() *)
Definition stop (e : Engine) : M Process unit :=
  for_each (reporters e) Reporter_stop.

(** [stopAll]:
    if ReportingEngine.sharedInstance is not None:
        ReportingEngine.sharedInstance.stop() *)
Definition stopAll : M Process unit :=
  let* inst := gets sharedInstance in
  match inst with
  | Some e => stop e
  | None => ret tt
  end.

(** The calls a process makes on the class, one after the other. *)
Inductive Call := GetSharedInstance | StopAll.

Definition perform (c : Call) : M Process unit :=
  match c with
  | GetSharedInstance => getSharedInstance >> ret tt
  | StopAll => stopAll
  end.

Definition run (s : Process) (calls : list Call) : Process :=
  foldl (λ s c, snd (perform c s)) s calls.

End Config.

End ReportingProcess.

(** ** The driver class of a type tag *)

Module DriverName.

(** The characters of a type tag are taken to be ASCII, where Python's
    [str.islower], [str.isupper], [str.isalnum], [str.upper] and
    [str.lower] are the functions below. *)
Abbreviation ascii := Ascii.ascii.

Definition code (c : ascii) : nat := Ascii.nat_of_ascii c.

Definition is_ascii (c : ascii) : bool := code c <? 128.
Definition islower (c : ascii) : bool := (97 <=? code c) && (code c <=? 122).
Definition isupper (c : ascii) : bool := (65 <=? code c) && (code c <=? 90).
Definition isdigit (c : ascii) : bool := (48 <=? code c) && (code c <=? 57).
Definition isalnum (c : ascii) : bool := islower c || isupper c || isdigit c.
Definition upper (c : ascii) : ascii :=
  if islower c then Ascii.ascii_of_nat (code c - 32) else c.
Definition lower (c : ascii) : ascii :=
  if isupper c then Ascii.ascii_of_nat (code c + 32) else c.

(** [str.title()]: a cased character is put in upper case when the
    character before it is not cased, and in lower case when it is. *)
Fixpoint title_from (previous_is_cased : bool) (s : string) : string :=
  match s with
  | EmptyString => EmptyString
  | String c s' =>
      if islower c then
        String (if previous_is_cased then c else upper c) (title_from true s')
      else if isupper c then
        String (if previous_is_cased then lower c else c) (title_from true s')
      else String c (title_from false s')
  end.

Definition title (s : string) : string := title_from false s.

(** ["".join(x for x in ... if x.isalnum())] *)
Fixpoint join_alnum (s : string) : string :=
  match s with
  | EmptyString => EmptyString
  | String c s' => if isalnum c then String c (join_alnum s') else join_alnum s'
  end.

(** In [buildNewSource]:
    className = "".join(x for x in sdrType.title() if x.isalnum()) + "Source" *)
Definition className (sdrType : string) : string :=
  join_alnum (title sdrType) +:+ "Source".

(** In [buildNewSource]: the module ["owrx.source.{0}".format(sdrType)]. *)
Definition moduleName (sdrType : string) : string :=
  "owrx.source." +:+ sdrType.

(** [str.lower()] of a whole string, to compare tags up to case. *)
Fixpoint lower_all (s : string) : string :=
  match s with
  | EmptyString => EmptyString
  | String c s' => String (lower c) (lower_all s')
  end.

Fixpoint all_chars (P : ascii → bool) (s : string) : bool :=
  match s with
  | EmptyString => true
  | String c s' => P c && all_chars P s'
  end.

End DriverName.

(** ** Properties of the shared reporting engine *)

Module ReportingProcessFacts.
Import ReportingEngine ReportingProcess.

#[local] Instance Call_eq_dec : EqDecision Call.
Proof. solve_decision. Defined.

Lemma stop_loop rs : ∀ s,
  for_each rs Reporter_stop s
  = (Ok tt, {| sharedInstance := sharedInstance s; constructed := constructed s;
               stopped := stopped s ++ (rid <$> rs) |}).
Proof.
  induction rs as [|r rs IH]; intros s; simpl.
  - unfold ret. rewrite app_nil_r. by destruct s.
  - unfold bind, Reporter_stop, modify. rewrite IH. simpl.
    by rewrite <- app_assoc.
Qed.

(** X2: [stopAll] never builds the engine and never drops it: without a
    shared instance it does nothing, with one it calls [stop()] on each
    of its reporters once, in list order, and the instance stays in
    place. *)
Theorem stopAll_stops_each_reporter (s : Process) :
  stopAll s
  = (Ok tt,
     {| sharedInstance := sharedInstance s;
        constructed := constructed s;
        stopped := stopped s ++
                   match sharedInstance s with
                   | Some e => rid <$> reporters e
                   | None => []
                   end |}).
Proof.
  unfold stopAll, bind, gets. destruct (sharedInstance s) as [e|] eqn:He.
  - unfold stop. rewrite stop_loop. by rewrite He.
  - unfold ret. rewrite app_nil_r. destruct s. simpl in *. by subst.
Qed.

Section Config.
Variable pskreporter_enabled : bool.
Variable PskReporter : Reporter.

(** The engine the constructor builds. *)
Definition built : Engine :=
  {| reporters := if pskreporter_enabled then [PskReporter] else [];
     delivered := [] |}.

(** The [StopAll] calls that come after the first [GetSharedInstance]. *)
Fixpoint stops_after_get (calls : list Call) : nat :=
  match calls with
  | [] => 0
  | GetSharedInstance :: rest => length (filter (λ c, c = StopAll) rest)
  | StopAll :: rest => stops_after_get rest
  end.

Lemma run_with_instance e calls : ∀ s,
  sharedInstance s = Some e →
  run pskreporter_enabled PskReporter s calls
  = {| sharedInstance := Some e;
       constructed := constructed s;
       stopped := stopped s ++
                  mjoin (replicate (length (filter (λ c, c = StopAll) calls))
                           (rid <$> reporters e)) |}.
Proof.
  induction calls as [|c calls IH]; intros s He.
  - simpl. rewrite app_nil_r. destruct s. simpl in *. by subst.
  - destruct c; simpl.
    + unfold getSharedInstance, bind, gets. rewrite He. simpl.
      rewrite filter_cons, decide_False by done. by apply IH.
    + rewrite stopAll_stops_each_reporter, He. simpl.
      rewrite IH by done. simpl.
      by rewrite <- app_assoc.
Qed.

(** X3: whatever sequence of [getSharedInstance] and [stopAll] calls a
    process makes, the engine is constructed once if [getSharedInstance]
    is called at all and never otherwise, every [getSharedInstance]
    leaves the same instance in place, and each [stopAll] after the first
    [getSharedInstance] stops the instance's reporters again. *)
Theorem engine_is_constructed_once (calls : list Call) :
  run pskreporter_enabled PskReporter no_engine calls
  = if bool_decide (GetSharedInstance ∈ calls) then
      {| sharedInstance := Some built;
         constructed := 1;
         stopped := mjoin (replicate (stops_after_get calls) (rid <$> reporters built)) |}
    else no_engine.
Proof.
  induction calls as [|c calls IH].
  - done.
  - destruct c.
    + rewrite bool_decide_eq_true_2 by (by left).
      change (run _ _ no_engine (GetSharedInstance :: calls))
        with (run pskreporter_enabled PskReporter
                {| sharedInstance := Some built; constructed := 1; stopped := [] |}
                calls).
      by rewrite (run_with_instance built).
    + change (run _ _ no_engine (StopAll :: calls))
        with (run pskreporter_enabled PskReporter no_engine calls).
      rewrite IH. simpl.
      destruct (decide (GetSharedInstance ∈ calls)) as [Hin|Hin].
      * by rewrite !bool_decide_eq_true_2 by (done || by right).
      * rewrite !bool_decide_eq_false_2; [done| |done].
        intros Hc. apply elem_of_cons in Hc as [?|?]; done.
Qed.

End Config.

End ReportingProcessFacts.

(** ** Properties of the driver class name *)

Module DriverNameFacts.
Import DriverName.

(** A statement about every character, checked on each of them. *)
Lemma for_all_chars (P : ascii → bool) :
  (∀ b0 b1 b2 b3 b4 b5 b6 b7, P (Ascii.Ascii b0 b1 b2 b3 b4 b5 b6 b7) = true) →
  ∀ c, P c = true.
Proof. intros H [b0 b1 b2 b3 b4 b5 b6 b7]. apply H. Qed.

Definition lower_char_ok (c : ascii) : bool :=
  if isupper c then
    islower (lower c) && negb (isupper (lower c)) && bool_decide (upper (lower c) = c)
  else bool_decide (lower c = c).

Lemma lower_char_spec c : lower_char_ok c = true.
Proof.
  apply for_all_chars. intros [] [] [] [] [] [] [] []; vm_compute; reflexivity.
Qed.

Definition not_both_cases (c : ascii) : bool := negb (islower c && isupper c).

Lemma not_both_cases_spec c : not_both_cases c = true.
Proof.
  apply for_all_chars. intros [] [] [] [] [] [] [] []; vm_compute; reflexivity.
Qed.

(** [title()] does not look at the case its input had. *)
Lemma title_from_lower_all s : ∀ b,
  title_from b (lower_all s) = title_from b s.
Proof.
  induction s as [|c s IH]; intros b; [done|].
  simpl. pose proof (lower_char_spec c) as Hc. unfold lower_char_ok in Hc.
  pose proof (not_both_cases_spec c) as Hn. unfold not_both_cases in Hn.
  destruct (isupper c) eqn:Hu.
  - apply andb_true_iff in Hc as [Hc Hul]. apply andb_true_iff in Hc as [Hl Hnu].
    apply bool_decide_eq_true_1 in Hul.
    rewrite Hl. rewrite andb_true_r in Hn. apply negb_true_iff in Hn. rewrite Hn.
    rewrite IH. destruct b; [done|]. by rewrite Hul.
  - apply bool_decide_eq_true_1 in Hc. rewrite Hc, Hu. by rewrite !IH.
Qed.

Lemma moduleName_inj s t : moduleName s = moduleName t → s = t.
Proof. unfold moduleName. intros H. cbn in H. by injection H. Qed.

(** X4: type tags of ASCII characters that differ only in the case of
    their letters get the same driver class name, while their module
    names differ as the tags do. *)
Theorem className_ignores_case (s t : string) :
  all_chars is_ascii s = true →
  all_chars is_ascii t = true →
  lower_all s = lower_all t →
  className s = className t ∧ (moduleName s = moduleName t ↔ s = t).
Proof.
  intros _ _ Hst. split.
  - unfold className, title.
    by rewrite <- (title_from_lower_all s), <- (title_from_lower_all t), Hst.
  - split; [apply moduleName_inj|by intros ->].
Qed.

(** Whether the last character of [s] is cased, [b] for the empty string. *)
Fixpoint cased_after (b : bool) (s : string) : bool :=
  match s with
  | EmptyString => b
  | String c s' => cased_after (islower c || isupper c) s'
  end.

Lemma join_alnum_title_app x y : ∀ b,
  join_alnum (title_from b (x +:+ y))
  = join_alnum (title_from b x) +:+ join_alnum (title_from (cased_after b x) y).
Proof.
  induction x as [|c x IH]; intros b; [done|].
  simpl. destruct (islower c) eqn:Hl; [|destruct (isupper c) eqn:Hu]; simpl;
    rewrite IH; match goal with |- context [isalnum ?d] => destruct (isalnum d) end;
    done.
Qed.

(** A run of separators: not empty, no letter and no digit in it. *)
Definition separator (s : string) : bool :=
  negb (bool_decide (s = EmptyString)) && all_chars (λ c, negb (isalnum c)) s.

Lemma separator_title sep b :
  separator sep = true →
  join_alnum (title_from b sep) = EmptyString ∧ cased_after b sep = false.
Proof.
  unfold separator. intros H. apply andb_true_iff in H as [Hne Hall].
  apply negb_true_iff, bool_decide_eq_false_1 in Hne.
  revert b Hne Hall. induction sep as [|c sep IH]; intros b Hne Hall; [done|].
  simpl in Hall. apply andb_true_iff in Hall as [Hc Hall].
  apply negb_true_iff in Hc. unfold isalnum in Hc.
  apply orb_false_iff in Hc as [Hc Hd]. apply orb_false_iff in Hc as [Hl Hu].
  simpl. rewrite Hl, Hu. simpl. unfold isalnum. rewrite Hl, Hu, Hd. simpl.
  destruct sep as [|c' sep']; [done|]. by apply IH.
Qed.

(** X5: in a type tag of ASCII characters, a run of characters that are
    neither letters nor digits only marks a word boundary: replacing it
    by another such run leaves the driver class name as it is. *)
Theorem className_ignores_separators (x sep1 sep2 y : string) :
  all_chars is_ascii (x +:+ sep1 +:+ y) = true →
  all_chars is_ascii (x +:+ sep2 +:+ y) = true →
  separator sep1 = true →
  separator sep2 = true →
  className (x +:+ sep1 +:+ y) = className (x +:+ sep2 +:+ y).
Proof.
  intros _ _ H1 H2. unfold className, title.
  rewrite !join_alnum_title_app.
  destruct (separator_title sep1 (cased_after false x) H1) as [-> ->].
  destruct (separator_title sep2 (cased_after false x) H2) as [-> ->].
  done.
Qed.

End DriverNameFacts.

Module DriverNameExamples.
Import DriverName DriverNameFacts.

Example className_rtl_sdr :
  className "rtl_sdr" = "RtlSdrSource"%string ∧
  className "sdrplay" = "SdrplaySource"%string ∧
  className "HackRF" = "HackrfSource"%string ∧
  moduleName "rtl_sdr" = "owrx.source.rtl_sdr"%string.
Proof. repeat split; reflexivity. Qed.

Lemma className_ignores_case_witness :
  className "RTL_sdr" = className "rtl_SDR".
Proof.
  apply (className_ignores_case "RTL_sdr" "rtl_SDR"); reflexivity.
Defined.

Lemma className_ignores_separators_witness :
  className ("rtl" +:+ "_" +:+ "sdr") = className ("rtl" +:+ "--" +:+ "sdr").
Proof.
  apply (className_ignores_separators "rtl" "_" "--" "sdr"); reflexivity.
Defined.

End DriverNameExamples.

(** ** More on the registry operations *)

Module RegistryMore.
Import MappedSdrSources RegistryFacts.

(** What neither the health view nor a device callback changes: the
    registry's keys, its trace, and which devices exist. *)
Definition steady (w w' : World) : Prop :=
  sources w' = sources w ∧ trace w' = trace w ∧
  (∀ p, is_Some (devices w' !! p) ↔ is_Some (devices w !! p)).

#[global] Instance steady_refl : Reflexive steady.
Proof. intros w. by split_and!. Qed.

#[global] Instance steady_trans : Transitive steady.
Proof.
  intros w1 w2 w3 (Hs1 & Ht1 & Hd1) (Hs2 & Ht2 & Hd2). split_and!; try congruence.
  intros p. by rewrite Hd2.
Qed.

Lemma steady_alter f p w : steady w (set_devices (alter f p) w).
Proof. split_and!; try done. intros q. simpl. apply lookup_alter_is_Some. Qed.

Lemma active_delitem_steady key : preserves steady (active_delitem key).
Proof. intros w. unfold active_delitem. by destruct (active w !! key). Qed.

Lemma deliver_steady cb h : preserves steady (deliver cb h).
Proof. destruct cb; simpl; try apply active_delitem_steady; by intros w. Qed.

Lemma fire_steady p cb : preserves steady (Lifecycle.fire p cb).
Proof.
  apply preserves_bind; [apply _|by apply preserves_gets|].
  intros cs. apply preserves_for_each; try apply _. apply deliver_steady.
Qed.

Lemma active_addSource_steady key p :
  preserves steady (ActiveSdrSources._addSource key p).
Proof.
  unfold ActiveSdrSources._addSource.
  apply preserves_bind; [apply _|by apply preserves_gets|intros available].
  apply preserves_bind; [apply _|destruct available; by intros w|intros _].
  apply preserves_bind; [apply _|by intros w|intros h].
  apply preserves_bind; [apply _|by intros w|intros _].
  intros w. apply steady_alter.
Qed.

Lemma active_removeSource_steady key :
  preserves steady (ActiveSdrSources._removeSource key).
Proof.
  unfold ActiveSdrSources._removeSource.
  apply preserves_bind; [apply _| |intros h].
  { intros w. unfold ActiveSdrSources.handlers_getitem.
    by destruct (handlers w !! key). }
  apply preserves_bind; [apply _|intros w; apply steady_alter|intros _].
  apply preserves_bind; [apply _|by intros w|intros _].
  apply preserves_bind; [apply _|by apply preserves_gets|intros present].
  destruct present; [apply active_delitem_steady|by intros w].
Qed.

Lemma active_handle_steady changes :
  preserves steady (ActiveSdrSources.handleSdrDeviceChange changes).
Proof.
  apply preserves_for_each; try apply _. intros [key [p|]].
  - apply active_addSource_steady.
  - apply active_removeSource_steady.
Qed.

Lemma notify_steady key value : preserves steady (notify key value).
Proof.
  intros w. unfold notify. destruct (wired w); [|done].
  pose proof (active_handle_steady [(key, value)] w) as H.
  by destruct (ActiveSdrSources.handleSdrDeviceChange [(key, value)] w) as [[[]|e] w1].
Qed.

Lemma shutdown_effect old w :
  let w' := snd (Lifecycle.shutdown old w) in
  sources w' = sources w ∧ trace w' = trace w ++ [ShutdownCalled old] ∧
  (∀ p, is_Some (devices w' !! p) ↔ is_Some (devices w !! p)).
Proof.
  simpl. unfold Lifecycle.shutdown.
  rewrite (bind_ok _ _ w tt (emit (ShutdownCalled old) w)) by done.
  destruct (fire_steady old OnShutdown (emit (ShutdownCalled old) w)) as (Hs & Ht & Hd).
  by rewrite Hs, Ht.
Qed.

(** Storing a proxy under a key the registry does not hold. *)
Lemma setitem_absent key value w :
  sources w !! key = None →
  let w' := snd (__setitem__ key value w) in
  sources w' = <[key := value]> (sources w) ∧
  trace w' = trace w ++ [Installed key value] ∧
  (∀ p, is_Some (devices w' !! p) ↔ is_Some (devices w !! p)).
Proof.
  intros Hk. simpl. unfold __setitem__.
  rewrite (bind_ok _ _ w None w) by (unfold gets; by rewrite Hk).
  rewrite decide_False by done.
  set (w1 := emit (Installed key value) (set_sources <[key := value]> w)).
  destruct (notify_returns key (Some value) w1) as (w2 & Hn & _).
  pose proof (notify_steady key (Some value) w1) as (Hs & Ht & Hd).
  rewrite Hn in Hs, Ht, Hd. simpl in Hs, Ht, Hd.
  rewrite (bind_ok _ _ w tt w2).
  - by split_and!.
  - unfold layer_setitem.
    by rewrite (bind_ok _ _ w tt (set_sources <[key := value]> w)),
      (bind_ok _ _ _ tt w1).
Qed.

(** Deleting a key the registry holds. *)
Lemma delitem_effect key old w :
  sources w !! key = Some old →
  let w' := snd (__delitem__ key w) in
  sources w' = delete key (sources w) ∧
  trace w' = trace w ++ [Removed key; ShutdownCalled old] ∧
  (∀ p, is_Some (devices w' !! p) ↔ is_Some (devices w !! p)).
Proof.
  intros Hk. destruct (delitem_present key old w Hk) as [Hs Ht].
  split_and!; [done..|]. simpl. unfold __delitem__.
  rewrite (bind_ok _ _ w (Some old) w) by (unfold gets; by rewrite Hk).
  set (w1 := emit (Removed key) (set_sources (delete key) w)).
  destruct (notify_returns key None w1) as (w2 & Hn & _).
  pose proof (notify_steady key None w1) as (_ & _ & Hd).
  rewrite Hn in Hd. simpl in Hd.
  rewrite (bind_ok _ _ w tt w2).
  - destruct (shutdown_effect old w2) as (_ & _ & Hd'). unfold _removeSource.
    intros p. by rewrite Hd', Hd.
  - unfold layer_delitem.
    rewrite (bind_ok _ _ w (Some old) w) by (unfold gets; by rewrite Hk).
    by rewrite (bind_ok _ _ w tt (set_sources (delete key) w)),
      (bind_ok _ _ _ tt w1).
Qed.

(** X6 (with the guard of the batch loop): deleting a key the registry
    does not hold raises [KeyError] and changes nothing, no shutdown
    included; a deletion marker for such a key in a change batch is
    passed over without an error. *)
Theorem deleting_an_absent_key (w : World) (key : pykey) :
  sources w !! key = None →
  __delitem__ key w = (Raise (KeyError key), w) ∧
  ∀ is_available,
    handleSdrDeviceChange is_available [(key, PropertyDeleted)] w = (Ok tt, w).
Proof.
  intros Hk. split.
  - unfold __delitem__.
    rewrite (bind_ok _ _ w None w) by (unfold gets; by rewrite Hk).
    apply bind_raise. unfold layer_delitem.
    by rewrite (bind_ok _ _ w None w) by (unfold gets; by rewrite Hk).
  - intros is_available. unfold handleSdrDeviceChange, for_each.
    rewrite (bind_ok _ _ w tt w); [done|]. unfold handleChange.
    rewrite (bind_ok _ _ w false w); [done|].
    unfold gets. simpl. rewrite Hk.
    by rewrite bool_decide_eq_false_2 by (by intros [? ?]).
Qed.

Section Host.
Variable is_available : string → option bool.

(** The effect of [handleDeviceUpdate] on the registry's keys, its trace
    and the heap, in any state. *)
Lemma handleDeviceUpdate_effect key value w :
  let w' := snd (handleDeviceUpdate is_available key value w) in
  match sources w !! key, isDeviceValid is_available value with
  | Some old, false =>
      sources w' = delete key (sources w) ∧
      trace w' = trace w ++ [Removed key; ShutdownCalled old] ∧
      (∀ p, is_Some (devices w' !! p) ↔ is_Some (devices w !! p))
  | None, true =>
      let p := fresh (dom (devices w)) in
      sources w' = <[key := p]> (sources w) ∧
      trace w' = trace w ++ [Installed key p] ∧
      (∀ q, is_Some (devices w' !! q) ↔ q = p ∨ is_Some (devices w !! q))
  | _, _ => w' = w
  end.
Proof.
  simpl. unfold handleDeviceUpdate.
  rewrite (bind_ok _ _ w (bool_decide (is_Some (sources w !! key))) w) by done.
  destruct (sources w !! key) as [old|] eqn:Hk.
  - rewrite bool_decide_eq_true_2 by eauto. simpl.
    destruct (isDeviceValid is_available value); simpl; [done|].
    by apply delitem_effect.
  - rewrite bool_decide_eq_false_2 by (by intros [? ?]). simpl.
    destruct (isDeviceValid is_available value); simpl; [|done].
    set (p := fresh (dom (devices w))).
    set (nd := {| dev_id := key; dev_name := cfg_name value;
                  enabled := cfg_enabled value; failed := false; clients := [] |}).
    rewrite (bind_ok _ _ w p (set_devices <[p := nd]> w)) by done.
    destruct (setitem_absent key p (set_devices <[p := nd]> w) Hk) as (Hs & Ht & Hd).
    split_and!; [done..|]. intros q. rewrite Hd. simpl.
    rewrite lookup_insert_is_Some'. split; intros [?|?]; auto.
Qed.


End Host.

End RegistryMore.

(** ** More invariants of the running service *)

Module SystemMore.
Import RegistryFacts SystemFacts RegistryMore.

(** The property notifier's log is left alone. *)
Definition quiet (w w' : World) : Prop := logged w' = logged w.

#[local] Instance quiet_refl : Reflexive quiet.
Proof. by intros w. Qed.

#[local] Instance quiet_trans : Transitive quiet.
Proof. intros w1 w2 w3 H1 H2. unfold quiet in *. congruence. Qed.

Lemma active_delitem_quiet key : preserves quiet (active_delitem key).
Proof. intros w. unfold active_delitem. by destruct (active w !! key). Qed.

Lemma fire_quiet p cb : preserves quiet (Lifecycle.fire p cb).
Proof.
  apply preserves_bind; [apply _|by apply preserves_gets|].
  intros cs. apply preserves_for_each; try apply _.
  intros h. destruct cb; simpl; try apply active_delitem_quiet; by intros w.
Qed.

Lemma active_addSource_quiet key p :
  preserves quiet (ActiveSdrSources._addSource key p).
Proof. intros w. by rewrite active_addSource_spec. Qed.

Lemma active_removeSource_quiet key :
  preserves quiet (ActiveSdrSources._removeSource key).
Proof.
  intros w. destruct (handlers w !! key) as [h|] eqn:Hh.
  - by rewrite (active_removeSource_spec key h w Hh).
  - unfold ActiveSdrSources._removeSource.
    rewrite (bind_raise _ _ w (KeyError key) w); [done|].
    unfold ActiveSdrSources.handlers_getitem. by rewrite Hh.
Qed.

Lemma setitem_absent_quiet key value w :
  sources w !! key = None →
  logged (snd (MappedSdrSources.__setitem__ key value w)) = logged w.
Proof.
  intros Hk. unfold MappedSdrSources.__setitem__.
  rewrite (bind_ok _ _ w None w) by (unfold gets; by rewrite Hk).
  rewrite decide_False by done.
  set (w1 := emit (Installed key value) (set_sources <[key := value]> w)).
  assert (∃ w2, notify key (Some value) w1 = (Ok tt, w2) ∧ logged w2 = logged w)
    as (w2 & Hn & Hlog).
  { destruct (wired w) eqn:Hw.
    - eexists. split; [by apply notify_add_wired|].
      apply (active_addSource_quiet key value w1).
    - eexists. split; [by apply notify_unwired|done]. }
  rewrite (bind_ok _ _ w tt w2); [done|].
  unfold MappedSdrSources.layer_setitem.
  by rewrite (bind_ok _ _ w tt (set_sources <[key := value]> w)),
    (bind_ok _ _ _ tt w1).
Qed.

Lemma delitem_quiet key old w :
  Inv w →
  sources w !! key = Some old →
  logged (snd (MappedSdrSources.__delitem__ key w)) = logged w.
Proof.
  intros [HL _ _] Hk. unfold MappedSdrSources.__delitem__.
  rewrite (bind_ok _ _ w (Some old) w) by (unfold gets; by rewrite Hk).
  set (w1 := emit (Removed key) (set_sources (delete key) w)).
  assert (∃ w2, notify key None w1 = (Ok tt, w2) ∧ logged w2 = logged w)
    as (w2 & Hn & Hlog).
  { destruct (wired w) eqn:Hw.
    - unfold followed in HL. rewrite Hw in HL.
      destruct (linked_handler _ _ _ HL key old Hk) as (d & h & _ & Hh & _).
      eexists. split; [by apply (notify_remove_wired key h)|].
      apply (active_removeSource_quiet key w1).
    - eexists. split; [by apply notify_unwired|done]. }
  rewrite (bind_ok _ _ w tt w2).
  - unfold MappedSdrSources._removeSource, Lifecycle.shutdown.
    rewrite (bind_ok _ _ w2 tt (emit (ShutdownCalled old) w2)) by done.
    by rewrite (fire_quiet old OnShutdown (emit (ShutdownCalled old) w2)).
  - unfold MappedSdrSources.layer_delitem.
    rewrite (bind_ok _ _ w (Some old) w) by (unfold gets; by rewrite Hk).
    by rewrite (bind_ok _ _ w tt (set_sources (delete key) w)),
      (bind_ok _ _ _ tt w1).
Qed.

(** *** Devices are registered or shut down *)

Definition registered (w : World) (p : nat) : Prop :=
  ∃ k, sources w !! k = Some p.

(** How often [shutdown()] has been invoked on [p]. *)
Definition shutdowns (w : World) (p : nat) : nat :=
  length (filter (λ e, e = ShutdownCalled p) (trace w)).

(** Every device that has been built is under a key of the registry and
    has never been shut down, or is under no key and has been shut down
    once. *)
Definition Accounted (w : World) : Prop :=
  ∀ p, match devices w !! p with
       | Some _ => (registered w p ∧ shutdowns w p = 0) ∨
                   (¬ registered w p ∧ shutdowns w p = 1)
       | None => shutdowns w p = 0
       end.

Lemma accounted_steady w w' : steady w w' → Accounted w → Accounted w'.
Proof.
  intros (Hs & Ht & Hd) HA p. specialize (HA p). specialize (Hd p).
  unfold registered, shutdowns in *. rewrite Hs, Ht.
  destruct (devices w' !! p) as [d'|] eqn:Hd'; destruct (devices w !! p) as [d|] eqn:Hdp;
    try done.
  - destruct Hd as [Hd _]. destruct Hd; eauto. done.
  - destruct Hd as [_ Hd]. destruct Hd; eauto. done.
Qed.

Lemma shutdowns_snoc_other w' w p e :
  trace w' = trace w ++ [e] → e ≠ ShutdownCalled p → shutdowns w' p = shutdowns w p.
Proof.
  intros Ht He. unfold shutdowns. rewrite Ht, filter_app, filter_cons.
  rewrite decide_False by done. rewrite filter_nil, app_nil_r. done.
Qed.

Lemma accounted_stored key p w w' :
  Inv w →
  Accounted w →
  sources w !! key = None →
  devices w !! p = None →
  sources w' = <[key := p]> (sources w) →
  trace w' = trace w ++ [Installed key p] →
  (∀ q, is_Some (devices w' !! q) ↔ q = p ∨ is_Some (devices w !! q)) →
  Accounted w'.
Proof.
  intros HI HA Hk Hp Hs Ht Hd q.
  assert (shutdowns w' q = shutdowns w q) as Hsh
    by by apply (shutdowns_snoc_other _ _ _ (Installed key p)).
  rewrite Hsh. unfold registered. rewrite Hs.
  specialize (HA q). specialize (Hd q). destruct (decide (q = p)) as [->|Hne].
  - rewrite Hp in HA.
    assert (is_Some (devices w' !! p)) as [d' Hd'] by (apply Hd; by left).
    rewrite Hd'. left. split; [|done]. exists key. apply lookup_insert_eq.
  - destruct (devices w' !! q) as [d'|] eqn:Hd'.
    + destruct Hd as [Hd _]. destruct Hd as [?|[d Hdq]]; [by eauto|done|].
      rewrite Hdq in HA. destruct HA as [[[k Hkq] H0]|[Hnr H1]].
      * left. split; [|done]. exists k. rewrite lookup_insert_ne; [done|].
        intros <-. congruence.
      * right. split; [|done]. intros [k Hkq].
        apply lookup_insert_Some in Hkq as [[_ ?]|[_ Hkq]]; [done|].
        apply Hnr. by exists k.
    + destruct (devices w !! q) as [d|] eqn:Hdq; [|done].
      destruct Hd as [_ Hd]. destruct Hd; eauto. done.
Qed.

Lemma accounted_dropped key p w w' :
  Inv w →
  Accounted w →
  sources w !! key = Some p →
  sources w' = delete key (sources w) →
  trace w' = trace w ++ [Removed key; ShutdownCalled p] →
  (∀ q, is_Some (devices w' !! q) ↔ is_Some (devices w !! q)) →
  Accounted w'.
Proof.
  intros [_ Hheap Hinj] HA Hk Hs Ht Hd q.
  assert (shutdowns w' q = shutdowns w q + if decide (q = p) then 1 else 0) as Hsh.
  { unfold shutdowns. rewrite Ht, filter_app, length_app. f_equal.
    rewrite filter_cons, decide_False by done. rewrite filter_cons.
    destruct (decide (q = p)) as [->|Hne].
    - by rewrite decide_True.
    - rewrite decide_False; [done|]. by intros [= ->]. }
  rewrite Hsh. unfold registered. rewrite Hs.
  specialize (HA q). specialize (Hd q). destruct (decide (q = p)) as [->|Hne].
  - destruct (Hheap key p Hk) as [d Hdp]. rewrite Hdp in HA.
    assert (is_Some (devices w' !! p)) as [d' Hd'] by (apply Hd; eauto).
    rewrite Hd'. right. destruct HA as [[_ H0]|[Hnr _]].
    + split; [|lia]. intros [k Hkp]. apply lookup_delete_Some in Hkp as [Hne Hkp].
      apply Hne. by apply (Hinj key k p).
    + destruct Hnr. by exists key.
  - rewrite Nat.add_0_r.
    assert ((∃ k, delete key (sources w) !! k = Some q) ↔ registered w q) as Hreg.
    { split; intros [k Hkq].
      - apply lookup_delete_Some in Hkq as [_ Hkq]. by exists k.
      - exists k. rewrite lookup_delete_ne; [done|]. intros <-. congruence. }
    destruct (devices w' !! q) as [d'|] eqn:Hd'.
    + destruct Hd as [Hd _]. destruct Hd as [d Hdq]; [by eauto|].
      rewrite Hdq in HA. by rewrite Hreg.
    + destruct (devices w !! q) as [d|] eqn:Hdq; [|done].
      destruct Hd as [_ Hd]. destruct Hd; eauto. done.
Qed.

Section Host.
Variable is_available : string → option bool.

Lemma handleDeviceUpdate_accounted key value w :
  Inv w →
  Accounted w →
  Accounted (snd (MappedSdrSources.handleDeviceUpdate is_available key value w)) ∧
  logged (snd (MappedSdrSources.handleDeviceUpdate is_available key value w)) = logged w.
Proof.
  intros HI HA.
  pose proof (handleDeviceUpdate_effect is_available key value w) as H. simpl in H.
  assert (logged (snd (MappedSdrSources.handleDeviceUpdate is_available key value w))
          = logged w) as Hlog.
  { unfold MappedSdrSources.handleDeviceUpdate.
    rewrite (bind_ok _ _ w (bool_decide (is_Some (sources w !! key))) w) by done.
    destruct (sources w !! key) as [old|] eqn:Hk.
    - rewrite bool_decide_eq_true_2 by eauto. simpl.
      destruct (MappedSdrSources.isDeviceValid is_available value); simpl; [done|].
      by apply (delitem_quiet key old).
    - rewrite bool_decide_eq_false_2 by (by intros [? ?]). simpl.
      destruct (MappedSdrSources.isDeviceValid is_available value); simpl; [|done].
      rewrite (bind_ok _ _ w (fresh (dom (devices w))) _) by done.
      by rewrite setitem_absent_quiet. }
  split; [|done].
  destruct (sources w !! key) as [old|] eqn:Hk;
    destruct (MappedSdrSources.isDeviceValid is_available value) eqn:Hv;
    try (by rewrite H).
  - destruct H as (Hs & Ht & Hd). by eapply accounted_dropped.
  - destruct H as (Hs & Ht & Hd). eapply accounted_stored; try done.
    apply not_elem_of_dom, is_fresh.
Qed.

Lemma handleChange_accounted c w :
  Inv w →
  Accounted w →
  Accounted (snd (MappedSdrSources.handleChange is_available c w)) ∧
  logged (snd (MappedSdrSources.handleChange is_available c w)) = logged w.
Proof.
  intros HI HA. destruct c as [key value]. unfold MappedSdrSources.handleChange.
  rewrite (bind_ok _ _ w (bool_decide (is_Some (sources w !! key))) w) by done.
  simpl. destruct (sources w !! key) as [old|] eqn:Hk.
  - rewrite bool_decide_eq_true_2 by eauto. destruct value as [value|]; [done|].
    split; [|by apply (delitem_quiet key old)].
    destruct (delitem_effect key old w Hk) as (Hs & Ht & Hd).
    by eapply accounted_dropped.
  - rewrite bool_decide_eq_false_2 by (by intros [? ?]).
    destruct value as [value|]; [|done].
    by apply handleDeviceUpdate_accounted.
Qed.

Lemma handleSdrDeviceChange_accounted changes : ∀ cfg w,
  Inv w →
  Synced is_available cfg w →
  Accounted w →
  Accounted (snd (MappedSdrSources.handleSdrDeviceChange is_available changes w)) ∧
  logged (snd (MappedSdrSources.handleSdrDeviceChange is_available changes w))
  = logged w.
Proof.
  unfold MappedSdrSources.handleSdrDeviceChange.
  induction changes as [|c changes IH]; intros cfg w HI HS HA; [done|].
  destruct (handleChange_step is_available c cfg w HI HS)
    as (w1 & Hrun & HI1 & _ & HS1 & _).
  destruct (handleChange_accounted c w HI HA) as [HA1 Hlog1].
  rewrite Hrun in HA1, Hlog1. simpl in HA1, Hlog1.
  simpl. rewrite (bind_ok _ _ w tt w1 Hrun).
  destruct (IH _ w1 HI1 HS1 HA1) as [HA2 Hlog2]. split; [done|congruence].
Qed.

Lemma registry_init_accounted (l : list (pykey * ConfigEntry)) : ∀ cfg w,
  Inv w →
  Synced is_available cfg w →
  Accounted w →
  Accounted
    (snd (for_each l (λ item, MappedSdrSources._addSource is_available item.1 item.2) w)) ∧
  logged
    (snd (for_each l (λ item, MappedSdrSources._addSource is_available item.1 item.2) w))
  = logged w.
Proof.
  induction l as [|[k e] l IH]; intros cfg w HI HS HA; [done|].
  destruct (handleDeviceUpdate_step is_available k e cfg w HI HS)
    as (w1 & Hrun & HI1 & _ & HS1 & _).
  destruct (handleDeviceUpdate_accounted k e w HI HA) as [HA1 Hlog1].
  rewrite Hrun in HA1, Hlog1. simpl in HA1, Hlog1.
  simpl. unfold MappedSdrSources._addSource at 1 3.
  rewrite (bind_ok _ _ w tt w1 Hrun).
  destruct (IH _ w1 HI1 HS1 HA1) as [HA2 Hlog2]. split; [done|congruence].
Qed.

Lemma getActiveSources_steady : preserves steady SdrService.getActiveSources.
Proof.
  intros w. unfold SdrService.getActiveSources. destruct (wired w); [done|].
  unfold ActiveSdrSources.__init__.
  apply preserves_bind; [apply _|by intros ?|intros _].
  apply preserves_bind; [apply _|by intros ?|intros _].
  apply preserves_bind; [apply _|by apply preserves_gets|intros items].
  apply preserves_bind; [apply _| |intros _; by intros ?].
  apply preserves_for_each; try apply _. intros item. apply active_addSource_steady.
Qed.

Lemma getActiveSources_quiet : preserves quiet SdrService.getActiveSources.
Proof.
  intros w. unfold SdrService.getActiveSources. destruct (wired w); [done|].
  unfold ActiveSdrSources.__init__.
  apply preserves_bind; [apply _|by intros ?|intros _].
  apply preserves_bind; [apply _|by intros ?|intros _].
  apply preserves_bind; [apply _|by apply preserves_gets|intros items].
  apply preserves_bind; [apply _| |intros _; by intros ?].
  apply preserves_for_each; try apply _. intros item. apply active_addSource_quiet.
Qed.

Lemma lifecycle_steady f cb p : preserves steady (transition f cb p).
Proof.
  apply preserves_bind; [apply _|intros w; apply steady_alter|intros _].
  apply fire_steady.
Qed.

Lemma lifecycle_quiet f cb p : preserves quiet (transition f cb p).
Proof.
  apply preserves_bind; [apply _|by intros w|intros _]. apply fire_quiet.
Qed.

Lemma step_accounted s cfg w :
  Inv w →
  Synced is_available cfg w →
  Accounted w →
  Accounted (SdrService.step is_available w s) ∧
  logged (SdrService.step is_available w s) = logged w.
Proof.
  intros HI HS HA. unfold SdrService.step. destruct s as [changes|p|p|p|]; simpl.
  - by apply (handleSdrDeviceChange_accounted changes cfg).
  - split; [eapply accounted_steady; [|done]|];
      [apply (lifecycle_steady (SdrSource.set_failed true) OnFail p w)
      |apply (lifecycle_quiet (SdrSource.set_failed true) OnFail p w)].
  - split; [eapply accounted_steady; [|done]|];
      [apply (lifecycle_steady (SdrSource.set_enabled false) OnDisable p w)
      |apply (lifecycle_quiet (SdrSource.set_enabled false) OnDisable p w)].
  - split; [eapply accounted_steady; [|done]|];
      [apply (lifecycle_steady (SdrSource.set_enabled true) OnEnable p w)
      |apply (lifecycle_quiet (SdrSource.set_enabled true) OnEnable p w)].
  - split; [eapply accounted_steady; [|done]|];
      [apply getActiveSources_steady|apply getActiveSources_quiet].
Qed.

Lemma run_accounted steps : ∀ cfg w,
  Inv w →
  Synced is_available cfg w →
  Accounted w →
  Accounted (SdrService.run is_available w steps) ∧
  logged (SdrService.run is_available w steps) = logged w.
Proof.
  induction steps as [|s steps IH]; intros cfg w HI HS HA; [done|].
  destruct (step_Inv is_available s cfg w HI HS) as [HI' HS'].
  destruct (step_accounted s cfg w HI HS HA) as [HA' Hlog'].
  destruct (IH _ _ HI' HS' HA') as [HA'' Hlog'']. split; [done|].
  simpl. congruence.
Qed.

Lemma getAllSources_accounted sdrs :
  Accounted (SdrService.getAllSources is_available sdrs) ∧
  logged (SdrService.getAllSources is_available sdrs) = [].
Proof.
  unfold SdrService.getAllSources, MappedSdrSources.__init__.
  apply (registry_init_accounted (map_to_list sdrs) ∅ empty_world).
  - apply Inv_empty_world.
  - split.
    + intros k e H. by rewrite lookup_empty in H.
    + intros k [? H]. simpl in H. by rewrite lookup_empty in H.
  - intros p. simpl. by rewrite lookup_empty.
Qed.

(** X8: along the steps of the service, every device that has been built
    is either under a key of the registry and has never been shut down,
    or is under no key and has been shut down exactly once; no shutdown
    is ever invoked on anything else. *)
Theorem devices_are_registered_or_shut_down_once
    (sdrs : gmap pykey ConfigEntry) (steps : list SdrService.Step) (p : nat) :
  let w := SdrService.run is_available (SdrService.getAllSources is_available sdrs) steps in
  match devices w !! p with
  | Some _ => (registered w p ∧ shutdowns w p = 0) ∨
              (¬ registered w p ∧ shutdowns w p = 1)
  | None => shutdowns w p = 0
  end.
Proof.
  simpl. destruct (getAllSources_Inv is_available sdrs) as (HI & HS & _ & _).
  destruct (getAllSources_accounted sdrs) as [HA _].
  destruct (run_accounted steps sdrs _ HI HS HA) as [HA' _]. apply HA'.
Qed.


End Host.

End SystemMore.

(** ** More on the health view *)

Module HealthViewMore.
Import SystemFacts.

Lemma filter_absent (h : Handler) (l : list Handler) :
  h ∉ l → filter (λ c', c' ≠ h) l = l.
Proof.
  induction l as [|x l IH]; intros Hh; [done|].
  apply not_elem_of_cons in Hh as [Hne Hh].
  rewrite filter_cons, decide_True by done. by rewrite IH.
Qed.

(** X10: on a key the health view does not follow, for a device none of
    whose listeners is the handler about to be made, [_addSource] followed
    by [_removeSource] returns normally and gives back the overlay, the
    tracking set and the device with its listeners: only the count of
    handlers made has moved. *)
Theorem addSource_then_removeSource
    (w : World) (key : pykey) (source : nat) (d : Device) :
  devices w !! source = Some d →
  handlers w !! key = None →
  active w !! key = None →
  (∀ h, h ∈ clients d → hid h ≠ handlers_made w) →
  (ActiveSdrSources._addSource key source >> ActiveSdrSources._removeSource key) w
  = (Ok tt, set_handlers_made (Datatypes.S (handlers_made w)) w).
Proof.
  intros Hd Hh Ha Hfresh.
  rewrite (bind_ok _ _ w tt _ (active_addSource_spec key source w)).
  set (h := {| hid := handlers_made w; hkey := key; hsource := source |}).
  rewrite (active_removeSource_spec key h) by apply lookup_insert_eq.
  assert (h ∉ clients d) as Hnew.
  { intros Hin. by apply (Hfresh h Hin). }
  simpl. f_equal. unfold set_handlers_made. destruct w as [srcs devs wrd hs act made tr lg]; simpl in *. f_equal.
  - apply map_eq. intros q.
    destruct (decide (source = q)) as [<-|Hne]; [|by rewrite !lookup_alter_ne].
    rewrite !lookup_alter_eq, Hd. simpl. f_equal. destruct d; simpl in *.
    unfold SdrSource.set_clients. simpl. f_equal.
    rewrite filter_app, filter_cons, decide_False, filter_nil, app_nil_r
      by (intros Hneq; by apply Hneq).
    by apply filter_absent.
  - by rewrite delete_insert_id.
  - destruct (avail devs source).
    + by rewrite delete_insert_id.
    + by rewrite delete_id.
Qed.

(** X11: a deletion marker for a key the health view does not follow
    makes [handleSdrDeviceChange] raise [KeyError] on the lookup of the
    key's handler; the changes before it in the batch stay applied, the
    change itself has no effect and the changes after it are not
    processed. *)
Theorem deletion_of_untracked_key_aborts_the_batch
    (w w1 : World) (pre post : list (pykey * option nat)) (key : pykey) :
  ActiveSdrSources.handleSdrDeviceChange pre w = (Ok tt, w1) →
  handlers w1 !! key = None →
  ActiveSdrSources.handleSdrDeviceChange (pre ++ (key, None) :: post) w
  = (Raise (KeyError key), w1).
Proof.
  intros Hpre Hk. unfold ActiveSdrSources.handleSdrDeviceChange.
  erewrite for_each_app by exact Hpre.
  change (for_each ((key, None) :: post) ?f w1)
    with (bind (f (key, None)) (λ _, for_each post f) w1).
  apply bind_raise. simpl. unfold ActiveSdrSources._removeSource.
  apply bind_raise. unfold ActiveSdrSources.handlers_getitem. by rewrite Hk.
Qed.


End HealthViewMore.

(** ** Lookups of [SdrService] *)

Module SdrServiceLookup.

(** What a lookup hands back: a value, or the [IndexError] of taking the
    first element of an empty list. *)
Inductive Answer :=
| Returned (source : option nat)
| IndexError.

Section Overlay.

(** Modelled from the spec: the truth value of the health view, whose
    class (owrx.property) is not among the sources, and the order in
    which it lists its keys.  Python takes an object for true unless its
    class says otherwise, and the spec has the lookups return none for an
    empty view; [truthy] is whatever the class answers, [keys] whatever
    order it iterates in. *)
Variable truthy : gmap pykey nat → bool.
Variable keys : gmap pykey nat → list pykey.

(** [getFirstSource], once [getActiveSources()] has returned [sources]:
    if not sources: return None
    return sources[list(sources.keys())[0]] *)
Definition firstOf (sources : gmap pykey nat) : Answer :=
  if negb (truthy sources) then Returned None
  else match keys sources with
       | [] => IndexError
       | k :: _ => Returned (sources !! k)
       end.

(** [getSource], once [getActiveSources()] has returned [sources]:
    if not sources: return None
    if id not in sources: return None
    return sources[id] *)
Definition sourceOf (id : pykey) (sources : gmap pykey nat) : option nat :=
  if negb (truthy sources) then None
  else if negb (bool_decide (is_Some (sources !! id))) then None
  else sources !! id.

(** [getFirstSource] and [getSource]: both start with
    [sources = SdrService.getActiveSources()]. *)
Definition getFirstSource : M World Answer :=
  SdrService.getActiveSources >>
  let* sources := gets active in
  ret (firstOf sources).

Definition getSource (id : pykey) : M World (option nat) :=
  SdrService.getActiveSources >>
  let* sources := gets active in
  ret (sourceOf id sources).

End Overlay.

(** [stopAllSources]: for source in SdrService.getAllSources().values():
    source.stop(); the devices [stop()] is called on, one entry a call,
    in the order the registry lists its values. *)
Definition stopAllSources (w : World) : list nat :=
  (map_to_list (sources w)).*2.

End SdrServiceLookup.

Module SdrServiceLookupFacts.
Import SystemFacts SdrServiceLookup.

Section Overlay.
Variable is_available : string → option bool.
Variable truthy : gmap pykey nat → bool.
Variable keys : gmap pykey nat → list pykey.

(** A view that holds a key counts as true, and the keys it lists are
    the ones it holds. *)
Hypothesis nonempty_is_truthy : ∀ m, m ≠ ∅ → truthy m = true.
Hypothesis keys_are_the_keys : ∀ m k, k ∈ keys m ↔ is_Some (m !! k).

Lemma sourceOf_lookup id m : sourceOf truthy id m = m !! id.
Proof.
  unfold sourceOf. destruct (truthy m) eqn:Ht; simpl.
  - destruct (m !! id) eqn:Hid; [by rewrite bool_decide_eq_true_2|].
    by rewrite bool_decide_eq_false_2 by (by intros [? ?]).
  - destruct (decide (m = ∅)) as [->|Hne]; [by rewrite lookup_empty|].
    rewrite nonempty_is_truthy in Ht; done.
Qed.

Lemma firstOf_spec m :
  match firstOf truthy keys m with
  | Returned (Some p) => ∃ k, m !! k = Some p
  | Returned None => m = ∅
  | IndexError => m = ∅
  end.
Proof.
  unfold firstOf. destruct (truthy m) eqn:Ht; simpl.
  - destruct (keys m) as [|k ks] eqn:Hk.
    + apply map_empty. intros i. apply eq_None_not_Some. intros Hi.
      apply keys_are_the_keys in Hi. rewrite Hk in Hi. by apply elem_of_nil in Hi.
    + assert (is_Some (m !! k)) as [p Hp].
      { apply keys_are_the_keys. rewrite Hk. by left. }
      rewrite Hp. by exists k.
  - destruct (decide (m = ∅)) as [->|Hne]; [done|].
    rewrite nonempty_is_truthy in Ht; done.
Qed.

(** The state in which the lookups read the overlay. *)
Lemma after_getActiveSources sdrs steps :
  admissible_run is_available (SdrService.getAllSources is_available sdrs) steps = true →
  let w := SdrService.run is_available (SdrService.getAllSources is_available sdrs) steps in
  ∃ w', SdrService.getActiveSources w = (Ok tt, w') ∧
        sources w' = sources w ∧ wired w' = true ∧
        Mirrors (sources w') (devices w') (active w').
Proof.
  intros Hadm. simpl.
  destruct (getAllSources_Inv is_available sdrs) as (HI & HS & HH & _).
  pose proof (run_Healthy is_available steps sdrs _ HI HS HH Hadm) as HH'.
  destruct (run_Inv is_available steps sdrs _ HI HS) as [HI' _].
  destruct (getActiveSources_Inv _ HI') as (w' & Hrun & _ & Hs & Hw & HH'').
  exists w'. split_and!; try done.
  specialize (HH'' HH'). unfold Healthy, followed in HH''. by rewrite Hw in HH''.
Qed.

(** X13: along the steps of the service, as long as no failed device has
    signalled an enable to a handler, [getSource(id)] builds the health
    view if it is not there yet, returns normally, and hands back a
    device exactly when the registry holds it under [id] and it is
    enabled and not failed; otherwise it hands back [None]. *)
Theorem getSource_returns_the_available_proxy
    (sdrs : gmap pykey ConfigEntry) (steps : list SdrService.Step) (id : pykey) :
  admissible_run is_available (SdrService.getAllSources is_available sdrs) steps = true →
  let w := SdrService.run is_available (SdrService.getAllSources is_available sdrs) steps in
  let w' := snd (getSource truthy id w) in
  ∃ r, fst (getSource truthy id w) = Ok r ∧
       wired w' = true ∧ sources w' = sources w ∧
       ∀ p, r = Some p ↔
            sources w' !! id = Some p ∧ ActiveSdrSources.isAvailable p w' = true.
Proof.
  intros Hadm. simpl.
  destruct (after_getActiveSources sdrs steps Hadm) as (w' & Hrun & Hs & Hw & HM).
  unfold getSource. rewrite (bind_ok _ _ _ tt w' Hrun).
  rewrite (bind_ok _ _ w' (active w') w') by done. simpl.
  exists (sourceOf truthy id (active w')). split_and!; try done.
  intros p. rewrite sourceOf_lookup, isAvailable_avail. apply HM.
Qed.

(** X14: along the same steps, [getFirstSource()] hands back a device
    only if the registry holds it and it is enabled and not failed; when
    it hands back [None] or runs into the [IndexError] of an empty key
    list, no device of the registry is listed in the health view. *)
Theorem getFirstSource_returns_an_available_proxy
    (sdrs : gmap pykey ConfigEntry) (steps : list SdrService.Step) :
  admissible_run is_available (SdrService.getAllSources is_available sdrs) steps = true →
  let w := SdrService.run is_available (SdrService.getAllSources is_available sdrs) steps in
  let w' := snd (getFirstSource truthy keys w) in
  ∃ a, fst (getFirstSource truthy keys w) = Ok a ∧
       match a with
       | Returned (Some p) =>
           ∃ k, sources w' !! k = Some p ∧ ActiveSdrSources.isAvailable p w' = true
       | Returned None | IndexError =>
           ∀ k p, sources w' !! k = Some p → ActiveSdrSources.isAvailable p w' = false
       end.
Proof.
  intros Hadm. simpl.
  destruct (after_getActiveSources sdrs steps Hadm) as (w' & Hrun & Hs & Hw & HM).
  unfold getFirstSource. rewrite (bind_ok _ _ _ tt w' Hrun).
  rewrite (bind_ok _ _ w' (active w') w') by done. simpl.
  exists (firstOf truthy keys (active w')). split; [done|].
  pose proof (firstOf_spec (active w')) as Hfirst.
  assert (active w' = ∅ →
          ∀ k p, sources w' !! k = Some p → ActiveSdrSources.isAvailable p w' = false)
    as Hempty.
  { intros He k p Hk. rewrite isAvailable_avail.
    destruct (avail (devices w') p) eqn:Hav; [|done].
    assert (active w' !! k = Some p) as Ha by by apply HM.
    rewrite He, lookup_empty in Ha. done. }
  destruct (firstOf truthy keys (active w')) as [[p|]|]; try by apply Hempty.
  destruct Hfirst as [k Hk]. apply HM in Hk as [Hk Hav].
  exists k. by rewrite isAvailable_avail.
Qed.

End Overlay.

Section Host.
Variable is_available : string → option bool.

(** X15: along the steps of the service, [stopAllSources()] calls
    [stop()] once on every device that is under a key of the registry,
    enabled or not, failed or not, and on no other device. *)
Theorem stopAllSources_stops_each_registered_device_once
    (sdrs : gmap pykey ConfigEntry) (steps : list SdrService.Step) :
  let w := SdrService.run is_available (SdrService.getAllSources is_available sdrs) steps in
  NoDup (stopAllSources w) ∧
  ∀ p, p ∈ stopAllSources w ↔ ∃ k, sources w !! k = Some p.
Proof.
  simpl. destruct (getAllSources_Inv is_available sdrs) as (HI & HS & _ & _).
  destruct (run_Inv is_available steps sdrs _ HI HS) as [[_ _ Hinj] _].
  unfold stopAllSources. split.
  - apply NoDup_fmap_2_strong; [|apply NoDup_map_to_list].
    intros [k1 p1] [k2 p2] H1 H2 Heq. simpl in Heq. subst p2.
    apply elem_of_map_to_list in H1, H2. f_equal. by apply (Hinj k1 k2 p1).
  - intros p. rewrite list_elem_of_fmap. split.
    + intros [[k q] [-> Hin]]. apply elem_of_map_to_list in Hin. by exists k.
    + intros [k Hk]. exists (k, p). split; [done|]. by apply elem_of_map_to_list.
Qed.

End Host.

End SdrServiceLookupFacts.

(** ** The profile catalogue over time *)

Module AvailableProfilesRun.
Import AvailableProfiles.

(** [__init__]: empty [subscriptions] and [_layer], then one
    [_addSource] per item of the health view. *)
Definition __init__ (items : list (pykey * Source)) : M Catalog unit :=
  for_each items (λ item, _addSource item.1 item.2).

(** What reaches the catalogue once it is wired: a change batch of the
    health view, or the name change of a device it subscribed to. *)
Inductive Event :=
| SourcesChanged (changes : list (pykey * change))
| NameChanged (s_id : pykey) (name : string).

Definition perform (e : Event) : M Catalog unit :=
  match e with
  | SourcesChanged changes => handleSdrDeviceChange changes
  | NameChanged s_id name => handleSdrNameChange s_id name
  end.

Definition run (c : Catalog) (events : list Event) : Catalog :=
  foldl (λ c e, snd (perform e c)) c events.


End AvailableProfilesRun.

Module ProfileRunFacts.
Import AvailableProfiles ProfileFacts AvailableProfilesRun.

(** *** The overlay follows the names of the health view's devices *)










(** *** Subscriptions are cancelled once *)

(** No subscription has been cancelled twice, a cancelled subscription
    is not registered any more, every stored subscription is registered,
    and no subscription is stored twice. *)
Record Tidy (c : Catalog) : Prop := {
  tidy_cancelled : NoDup (cancelled c);
  tidy_dead : ∀ s, s ∈ cancelled c → s < issued c ∧ s ∉ live c;
  tidy_live : ∀ s, s ∈ live c → s < issued c;
  tidy_stored : ∀ k l s, subscriptions c !! k = Some l → s ∈ l → s ∈ live c;
  tidy_lists : ∀ k l, subscriptions c !! k = Some l → NoDup l;
  tidy_apart : ∀ k1 k2 l1 l2 s,
    subscriptions c !! k1 = Some l1 → subscriptions c !! k2 = Some l2 →
    s ∈ l1 → s ∈ l2 → k1 = k2
}.

Definition keeps_tidy (c c' : Catalog) : Prop := Tidy c → Tidy c'.

#[local] Instance keeps_tidy_refl : Reflexive keeps_tidy.
Proof. by intros c H. Qed.

#[local] Instance keeps_tidy_trans : Transitive keeps_tidy.
Proof. intros c1 c2 c3 H1 H2 H. auto. Qed.

Lemma tidy_empty : Tidy empty.
Proof.
  split; simpl.
  - constructor.
  - intros s Hs. by apply elem_of_nil in Hs.
  - intros s Hs. by apply not_elem_of_empty in Hs.
  - intros k l s H. by rewrite lookup_empty in H.
  - intros k l H. by rewrite lookup_empty in H.
  - intros k1 k2 l1 l2 s H. by rewrite lookup_empty in H.
Qed.

Lemma addSource_tidy key source : preserves keeps_tidy (_addSource key source).
Proof.
  intros c [Hnd Hdead Hlive Hstored Hlists Hapart]. rewrite addSource_spec.
  split; simpl.
  - done.
  - intros s Hs. destruct (Hdead s Hs) as [Hlt Hnl]. split; [lia|].
    rewrite elem_of_union, elem_of_singleton. intros [->|?]; [lia|done].
  - intros s. rewrite elem_of_union, elem_of_singleton.
    intros [->|Hs]; [lia|]. specialize (Hlive s Hs). lia.
  - intros k l s Hk Hs. rewrite elem_of_union, elem_of_singleton.
    apply lookup_insert_Some in Hk as [[_ <-]|[_ Hk]].
    + left. by apply list_elem_of_singleton in Hs.
    + right. eauto.
  - intros k l Hk. apply lookup_insert_Some in Hk as [[_ <-]|[_ Hk]]; [|eauto].
    apply NoDup_singleton.
  - intros k1 k2 l1 l2 s H1 H2 Hs1 Hs2.
    apply lookup_insert_Some in H1 as [[<- <-]|[Hne1 H1]];
      apply lookup_insert_Some in H2 as [[<- ?]|[Hne2 H2]]; subst; try done.
    + apply list_elem_of_singleton in Hs1 as ->.
      specialize (Hlive _ (Hstored _ _ _ H2 Hs2)). lia.
    + apply list_elem_of_singleton in Hs2 as ->.
      specialize (Hlive _ (Hstored _ _ _ H1 Hs1)). lia.
    + eauto.
Qed.

Lemma elem_of_rev (s : nat) (l : list nat) : s ∈ rev l ↔ s ∈ l.
Proof. rewrite !list_elem_of_In. symmetry. apply in_rev. Qed.

Lemma removeSource_tidy key : preserves keeps_tidy (_removeSource key).
Proof.
  intros c HT. destruct (layer c !! key) as [v|] eqn:Hk.
  2:{ by rewrite removeSource_absent. }
  rewrite (removeSource_present key v c Hk). simpl.
  destruct HT as [Hnd Hdead Hlive Hstored Hlists Hapart].
  destruct (subscriptions c !! key) as [l|] eqn:Hl; [|by split].
  split; simpl.
  - apply NoDup_app. split_and!; [done| |].
    + intros s Hs Hr. rewrite elem_of_rev in Hr.
      destruct (Hdead s Hs) as [_ Hnl]. apply Hnl. eauto.
    + apply NoDup_ListNoDup, NoDup_rev, NoDup_ListNoDup. eauto.
  - intros s Hs. rewrite elem_of_drained_live. apply elem_of_app in Hs as [Hs|Hs].
    + destruct (Hdead s Hs) as [Hlt Hnl]. split; [done|]. by intros [? _].
    + split; [|by intros [_ ?]]. rewrite elem_of_rev in Hs. eauto.
  - intros s Hs. apply elem_of_drained_live in Hs as [Hs _]. eauto.
  - intros k l' s Hk' Hs. apply lookup_delete_Some in Hk' as [Hne Hk'].
    rewrite lookup_insert_ne in Hk' by done.
    apply elem_of_drained_live. split; [by eauto|].
    intros Hr. rewrite elem_of_rev in Hr. apply Hne.
    by apply (Hapart key k l l' s).
  - intros k l' Hk'. apply lookup_delete_Some in Hk' as [Hne Hk'].
    rewrite lookup_insert_ne in Hk' by done. eauto.
  - intros k1 k2 l1 l2 s H1 H2.
    apply lookup_delete_Some in H1 as [Hne1 H1].
    apply lookup_delete_Some in H2 as [Hne2 H2].
    rewrite lookup_insert_ne in H1, H2 by done. eauto.
Qed.

Lemma perform_tidy e : preserves keeps_tidy (perform e).
Proof.
  destruct e as [changes|k name]; simpl.
  - apply preserves_for_each; try apply _. intros [key [source|]].
    + apply addSource_tidy.
    + apply removeSource_tidy.
  - intros c [Hnd Hdead Hlive Hstored Hlists Hapart]. by split.
Qed.

Lemma init_tidy items : Tidy (snd (__init__ items empty)).
Proof.
  assert (preserves keeps_tidy (__init__ items)) as H.
  { apply preserves_for_each; try apply _. intros item. apply addSource_tidy. }
  apply H, tidy_empty.
Qed.

Lemma run_tidy events : ∀ c, Tidy c → Tidy (run c events).
Proof.
  induction events as [|e events IH]; intros c HT; [done|].
  simpl. apply IH. by apply perform_tidy.
Qed.

(** X17: whatever change batches and name changes reach a catalogue
    built over any items, returning or raising, no subscription is ever
    cancelled twice, a cancelled subscription is no longer registered,
    and every subscription the catalogue still stores is registered and
    has not been cancelled. *)
Theorem subscriptions_are_cancelled_once
    (items : list (pykey * Source)) (events : list Event) :
  let c := run (snd (__init__ items empty)) events in
  NoDup (cancelled c) ∧
  (∀ s, s ∈ cancelled c → s ∉ live c) ∧
  (∀ k l s, subscriptions c !! k = Some l → s ∈ l → s ∈ live c ∧ s ∉ cancelled c).
Proof.
  simpl. destruct (run_tidy events _ (init_tidy items))
    as [Hnd Hdead Hlive Hstored Hlists Hapart].
  split_and!; [done|intros s Hs; by apply Hdead|].
  intros k l s Hk Hs. split; [by eauto|].
  intros Hc. destruct (Hdead s Hc) as [_ Hnl]. apply Hnl. eauto.
Qed.

End ProfileRunFacts.

(** ** Further scenarios *)

Module MoreScenarios.
Import Scenarios SystemFacts RegistryMore HealthViewMore.
Import SdrServiceLookup SdrServiceLookupFacts.

Definition handler_of_a : Handler := {| hid := 0; hkey := a; hsource := 0 |}.

Definition device_of_a : Device :=
  {| dev_id := a; dev_name := "Dev A"; enabled := true; failed := false;
     clients := [handler_of_a] |}.

Lemma deleting_an_absent_key_witness :
  MappedSdrSources.__delitem__ b service = (Raise (KeyError b), service).
Proof. apply (deleting_an_absent_key service b). reflexivity. Defined.

Example handleDeviceUpdate_on_service :
  sources (snd (MappedSdrSources.handleDeviceUpdate host a (hackrf "Dev A") service))
    !! a = None ∧
  sources (snd (MappedSdrSources.handleDeviceUpdate host b (rtlsdr "Dev B") service))
    !! b = Some 1.
Proof. split; reflexivity. Qed.

Lemma addSource_then_removeSource_witness :
  (ActiveSdrSources._addSource b 0 >> ActiveSdrSources._removeSource b) service
  = (Ok tt, set_handlers_made 2 service).
Proof.
  apply (addSource_then_removeSource service b 0 device_of_a); try reflexivity.
  intros h Hh. apply list_elem_of_singleton in Hh as ->. vm_compute. lia.
Defined.

Lemma deletion_of_untracked_key_aborts_the_batch_witness :
  ActiveSdrSources.handleSdrDeviceChange ([] ++ (b, None) :: [(a, None)]) service
  = (Raise (KeyError b), service).
Proof.
  apply (deletion_of_untracked_key_aborts_the_batch service service [] [(a, None)] b);
    reflexivity.
Defined.


(** A view that always counts as true and lists its keys in the order of
    the map. *)
Definition always_true (m : gmap pykey nat) : bool := true.
Definition listed_keys (m : gmap pykey nat) : list pykey := (map_to_list m).*1.

Lemma always_true_spec m : m ≠ ∅ → always_true m = true.
Proof. done. Qed.

Lemma listed_keys_spec m k : k ∈ listed_keys m ↔ is_Some (m !! k).
Proof.
  unfold listed_keys. rewrite list_elem_of_fmap. split.
  - intros [[k' p] [-> Hin]]. apply elem_of_map_to_list in Hin. eauto.
  - intros [p Hp]. exists (k, p). split; [done|]. by apply elem_of_map_to_list.
Qed.

Lemma getSource_returns_the_available_proxy_witness :
  let w := SdrService.run host (SdrService.getAllSources host sdrs) calm_steps in
  let w' := snd (getSource always_true b w) in
  ∃ r, fst (getSource always_true b w) = Ok r ∧
       wired w' = true ∧ sources w' = sources w ∧
       ∀ p, r = Some p ↔
            sources w' !! b = Some p ∧ ActiveSdrSources.isAvailable p w' = true.
Proof.
  apply (getSource_returns_the_available_proxy host always_true always_true_spec
           sdrs calm_steps b).
  reflexivity.
Defined.

Example getSource_on_calm_steps :
  let w := SdrService.run host (SdrService.getAllSources host sdrs) calm_steps in
  fst (getSource always_true b w) = Ok (Some 1) ∧
  fst (getSource always_true a w) = Ok None ∧
  fst (getFirstSource always_true listed_keys w) = Ok (Returned (Some 1)) ∧
  fst (getFirstSource always_true listed_keys registry_only) = Ok (Returned (Some 0)) ∧
  fst (getFirstSource always_true listed_keys empty_world) = Ok IndexError.
Proof. repeat split; reflexivity. Qed.

Lemma getFirstSource_returns_an_available_proxy_witness :
  let w := SdrService.run host (SdrService.getAllSources host sdrs) calm_steps in
  let w' := snd (getFirstSource always_true listed_keys w) in
  ∃ a, fst (getFirstSource always_true listed_keys w) = Ok a ∧
       match a with
       | Returned (Some p) =>
           ∃ k, sources w' !! k = Some p ∧ ActiveSdrSources.isAvailable p w' = true
       | Returned None | IndexError =>
           ∀ k p, sources w' !! k = Some p → ActiveSdrSources.isAvailable p w' = false
       end.
Proof.
  apply (getFirstSource_returns_an_available_proxy host always_true listed_keys
           always_true_spec listed_keys_spec sdrs calm_steps).
  reflexivity.
Defined.

End MoreScenarios.

Module MoreProfileExamples.
Import AvailableProfiles AvailableProfilesRun ProfileRunFacts ProfileExamples.

Definition one_device_story : list Event :=
  [SourcesChanged [(KStr "a", Upsert dev_a)];
   NameChanged (KStr "a") "Dev A2";
   SourcesChanged [(KStr "b", Upsert dev_a_renamed); (KStr "a", PropertyDeleted)]].


Example one_device_story_overlay :
  layer (run empty one_device_story) = {[ KStr "b" := "Dev A2"%string ]} ∧
  cancelled (run empty one_device_story) = [0] ∧
  elements (live (run empty one_device_story)) = [1].
Proof. repeat split; reflexivity. Qed.

End MoreProfileExamples.
